(** * Divide-and-conquer epicenter localisation: model and properties

    Shallow embedding of [earthquake_locator.cpp], in two readings of the
    C++ type [double].

    In the first reading [double] is the field of real numbers [R]:
    arithmetic is exact, and rounding, overflow and NaN are outside the
    model.  It carries the general statements: what the loops compute, as
    formulas, and how the driver divides and combines.  Comparisons of
    doubles become boolean tests decided by [Rle_dec] and friends,
    [std::vector] becomes [list], range-[for] loops become [fold_left] over
    the vector, and the recursion of [locateEpicenter], which the source
    does not bound, is driven by a fuel argument that counts the call depth
    still allowed.

    In the second reading, the module [IEEE], [double] is the binary64
    format of the machine.  The functions are the same, operation by
    operation; they are run at concrete inputs to show where the program
    leaves exact arithmetic. *)

From Stdlib Require Import Floats Uint63.
From Stdlib Require Import Reals Lra Lia List Bool Arith ZArith Permutation.
Import ListNotations.
Local Open Scope R_scope.

(** ** Comparisons and [std::min] on doubles *)

Definition double_le (a b : R) : bool := if Rle_dec a b then true else false.
Definition double_ge (a b : R) : bool := if Rge_dec a b then true else false.
Definition double_lt (a b : R) : bool := if Rlt_dec a b then true else false.

(** [std::min(a, b)] is [(b < a) ? b : a]. *)
Definition std_min (a b : R) : R := if double_lt b a then b else a.

(** ** Data model *)

Module SeismicStation.
Record t := mk { latitude : R; longitude : R; detection_time : R; id : Z }.
End SeismicStation.

Module Point.
Record t := mk { x : R; y : R }.

Definition distance (self other : t) : R :=
  sqrt ((x self - x other) * (x self - x other)
        + (y self - y other) * (y self - y other)).
End Point.

Module GeoBounds.
Record t := mk { min_lat : R; max_lat : R; min_lon : R; max_lon : R }.

Definition center (self : t) : Point.t :=
  Point.mk ((min_lat self + max_lat self) / 2)
           ((min_lon self + max_lon self) / 2).

Definition contains (self : t) (station : SeismicStation.t) : bool :=
  double_ge (SeismicStation.latitude station) (min_lat self)
  && double_le (SeismicStation.latitude station) (max_lat self)
  && double_ge (SeismicStation.longitude station) (min_lon self)
  && double_le (SeismicStation.longitude station) (max_lon self).
End GeoBounds.

Module Quadrant.
Record t := mk {
  bounds : GeoBounds.t;
  stations : list SeismicStation.t;
  estimate : Point.t;
  confidence : R
}.

(** The constructor [Quadrant(const GeoBounds& b)]. *)
Definition new (b : GeoBounds.t) : t := mk b [] (Point.mk 0 0) 0.

(** [quad.stations.push_back(station)]. *)
Definition push_back (quad : t) (station : SeismicStation.t) : t :=
  mk (bounds quad) (stations quad ++ [station]) (estimate quad)
     (confidence quad).
End Quadrant.

Module EpicenterResult.
Record t := mk { location : Point.t; confidence : R; error : R }.
End EpicenterResult.

Import SeismicStation.

(** ** The locator *)

Definition BASE_CASE_SIZE : nat := 8.
Definition WAVE_VELOCITY : R := 6.

(** *** [simpleTriangulation] *)

(** First loop: the minimum detection time, started at [stations[0]]. *)
Definition min_time_loop (stations : list SeismicStation.t) (init : R) : R :=
  fold_left (fun min_time station => std_min min_time (detection_time station))
            stations init.

(** Second loop: the accumulators [(sum_x, sum_y, total_weight)]. *)
Definition weight_step (min_time : R) (acc : R * R * R)
    (station : SeismicStation.t) : R * R * R :=
  let '(sum_x, sum_y, total_weight) := acc in
  let time_diff := detection_time station - min_time in
  let weight := 1 / (1 + time_diff * time_diff) in
  (sum_x + latitude station * weight,
   sum_y + longitude station * weight,
   total_weight + weight).

Definition weight_loop (min_time : R) (stations : list SeismicStation.t)
    : R * R * R :=
  fold_left (weight_step min_time) stations (0, 0, 0).

(** Third loop: the sum of squared travel-time residuals. *)
Definition error_step (estimated_center : Point.t) (min_time : R) (error : R)
    (station : SeismicStation.t) : R :=
  let distance :=
    Point.distance estimated_center
                   (Point.mk (latitude station) (longitude station)) in
  let theoretical_time := distance / WAVE_VELOCITY in
  let actual_time := detection_time station - min_time in
  error + (theoretical_time - actual_time) * (theoretical_time - actual_time).

Definition error_loop (estimated_center : Point.t) (min_time : R)
    (stations : list SeismicStation.t) : R :=
  fold_left (error_step estimated_center min_time) stations 0.

Definition simpleTriangulation (stations : list SeismicStation.t)
    : EpicenterResult.t :=
  match stations with
  | [] => EpicenterResult.mk (Point.mk 0 0) 0 1e9
  | [s0] => EpicenterResult.mk (Point.mk (latitude s0) (longitude s0)) 1 0
  | s0 :: _ =>
      let min_time := min_time_loop stations (detection_time s0) in
      let '(sum_x, sum_y, total_weight) := weight_loop min_time stations in
      let estimated_center :=
        Point.mk (sum_x / total_weight) (sum_y / total_weight) in
      let error := error_loop estimated_center min_time stations in
      let confidence := 1 / (1 + error / INR (length stations)) in
      EpicenterResult.mk estimated_center confidence error
  end.

(** *** [weightedCombination] *)

(** The loop body, on the accumulators
    [(total_weight, weighted_x, weighted_y, combined_error)]. *)
Definition combine_step (acc : R * R * R * R) (result : EpicenterResult.t)
    : R * R * R * R :=
  let '(total_weight, weighted_x, weighted_y, combined_error) := acc in
  let weight := EpicenterResult.confidence result in
  (total_weight + weight,
   weighted_x + Point.x (EpicenterResult.location result) * weight,
   weighted_y + Point.y (EpicenterResult.location result) * weight,
   combined_error + EpicenterResult.error result * weight).

Definition combine_loop (results : list EpicenterResult.t) : R * R * R * R :=
  fold_left combine_step results (0, 0, 0, 0).

Definition weightedCombination (results : list EpicenterResult.t)
    : EpicenterResult.t :=
  match results with
  | [] => EpicenterResult.mk (Point.mk 0 0) 0 1e9
  | [r] => r
  | _ =>
      let '(total_weight, weighted_x, weighted_y, combined_error) :=
        combine_loop results in
      let combined_location :=
        Point.mk (weighted_x / total_weight) (weighted_y / total_weight) in
      let combined_confidence := total_weight / INR (length results) in
      EpicenterResult.mk combined_location combined_confidence
                         (combined_error / total_weight)
  end.

(** *** [locateEpicenter] *)

(** The four quadrants of a region, in the order SW, SE, NW, NE. *)
Definition quadrants (bounds : GeoBounds.t) : list Quadrant.t :=
  let mid_lat := (GeoBounds.min_lat bounds + GeoBounds.max_lat bounds) / 2 in
  let mid_lon := (GeoBounds.min_lon bounds + GeoBounds.max_lon bounds) / 2 in
  [ Quadrant.new (GeoBounds.mk (GeoBounds.min_lat bounds) mid_lat
                               (GeoBounds.min_lon bounds) mid_lon);
    Quadrant.new (GeoBounds.mk (GeoBounds.min_lat bounds) mid_lat
                               mid_lon (GeoBounds.max_lon bounds));
    Quadrant.new (GeoBounds.mk mid_lat (GeoBounds.max_lat bounds)
                               (GeoBounds.min_lon bounds) mid_lon);
    Quadrant.new (GeoBounds.mk mid_lat (GeoBounds.max_lat bounds)
                               mid_lon (GeoBounds.max_lon bounds)) ].

(** The inner partition loop: the station is pushed onto the first quadrant
    whose bounds contain it, and the loop breaks. *)
Fixpoint assignStation (station : SeismicStation.t) (quads : list Quadrant.t)
    : list Quadrant.t :=
  match quads with
  | [] => []
  | quad :: rest =>
      if GeoBounds.contains (Quadrant.bounds quad) station
      then Quadrant.push_back quad station :: rest
      else quad :: assignStation station rest
  end.

(** The outer partition loop, over the stations in vector order. *)
Definition partitionStations (stations : list SeismicStation.t)
    (quads : list Quadrant.t) : list Quadrant.t :=
  fold_left (fun quads station => assignStation station quads) stations quads.

(** The loop over the quadrants that collects [results]; [recurse] is the
    recursive call.  The stores into [quad.estimate] and [quad.confidence]
    are never read again (the vector of quadrants is local), so only
    [results] is threaded through.  [None] is a sub-call that ran out of
    fuel. *)
Definition solve_step
    (recurse : list SeismicStation.t -> GeoBounds.t -> option EpicenterResult.t)
    (acc : option (list EpicenterResult.t)) (quad : Quadrant.t)
    : option (list EpicenterResult.t) :=
  match acc with
  | None => None
  | Some results =>
      match Quadrant.stations quad with
      | [] => Some results
      | _ :: _ =>
          match recurse (Quadrant.stations quad) (Quadrant.bounds quad) with
          | Some result => Some (results ++ [result])
          | None => None
          end
      end
  end.

Definition solveQuadrants
    (recurse : list SeismicStation.t -> GeoBounds.t -> option EpicenterResult.t)
    (quads : list Quadrant.t) : option (list EpicenterResult.t) :=
  fold_left (solve_step recurse) quads (Some []).

(** The [depth] argument of the source is passed down and never read; it is
    left out.  [fuel] bounds the depth of the call stack: [None] means that
    the recursion needed more than [fuel] nested calls. *)
Fixpoint locateEpicenter (fuel : nat) (stations : list SeismicStation.t)
    (bounds : GeoBounds.t) : option EpicenterResult.t :=
  match fuel with
  | O => None
  | S fuel' =>
      if (length stations <=? BASE_CASE_SIZE)%nat
      then Some (simpleTriangulation stations)
      else
        let quads := partitionStations stations (quadrants bounds) in
        match solveQuadrants (locateEpicenter fuel') quads with
        | Some results => Some (weightedCombination results)
        | None => None
        end
  end.

(** * Vocabulary of the statements *)

(** ** Regions and buckets *)

(** The regions of the four quadrants, and the split lines. *)
Definition quadrantBounds (bounds : GeoBounds.t) : list GeoBounds.t :=
  map Quadrant.bounds (quadrants bounds).

Definition mid_lat (bounds : GeoBounds.t) : R :=
  Point.x (GeoBounds.center bounds).
Definition mid_lon (bounds : GeoBounds.t) : R :=
  Point.y (GeoBounds.center bounds).

(** Index of the first region of [regions] that contains the station. *)
Fixpoint firstContaining (regions : list GeoBounds.t) (s : SeismicStation.t)
    : option nat :=
  match regions with
  | [] => None
  | b :: rest =>
      if GeoBounds.contains b s then Some O
      else option_map S (firstContaining rest s)
  end.

Definition goesTo (regions : list GeoBounds.t) (i : nat)
    (s : SeismicStation.t) : bool :=
  match firstContaining regions s with
  | Some j => (j =? i)%nat
  | None => false
  end.

(** Number of stations held by a vector of quadrants. *)
Definition stationCount (quads : list Quadrant.t) : nat :=
  list_sum (map (fun q => length (Quadrant.stations q)) quads).

(** ** Sums, weights and residuals *)

(** [Rsum f l] is the sum of [f a] over the elements [a] of [l]. *)
Fixpoint Rsum {A : Type} (f : A -> R) (l : list A) : R :=
  match l with
  | [] => 0
  | a :: rest => f a + Rsum f rest
  end.

Definition conf_weighted (f : EpicenterResult.t -> R) (r : EpicenterResult.t)
    : R :=
  f r * EpicenterResult.confidence r.

Definition result_x (r : EpicenterResult.t) : R :=
  Point.x (EpicenterResult.location r).
Definition result_y (r : EpicenterResult.t) : R :=
  Point.y (EpicenterResult.location r).

(** The reference time that [simpleTriangulation] computes. *)
Definition minTimeOf (stations : list SeismicStation.t) : R :=
  match stations with
  | [] => 0
  | s0 :: _ => min_time_loop stations (detection_time s0)
  end.

(** Weight of a station and its squared travel-time residual. *)
Definition stationWeight (min_time : R) (s : SeismicStation.t) : R :=
  1 / (1 + (detection_time s - min_time) ^ 2).

Definition stationPoint (s : SeismicStation.t) : Point.t :=
  Point.mk (latitude s) (longitude s).

Definition residual (estimate : Point.t) (min_time : R)
    (s : SeismicStation.t) : R :=
  (Point.distance estimate (stationPoint s) / 6
   - (detection_time s - min_time)) ^ 2.

(** The estimate of the weighted-average branch. *)
Definition weightedCenter (min_time : R) (stations : list SeismicStation.t)
    : Point.t :=
  Point.mk (Rsum (fun s => latitude s * stationWeight min_time s) stations
            / Rsum (stationWeight min_time) stations)
           (Rsum (fun s => longitude s * stationWeight min_time s) stations
            / Rsum (stationWeight min_time) stations).

(** ** The recursive calls and the calls of the combiner *)

(** The quadrants on which the driver recurses. *)
Definition hasStations (quad : Quadrant.t) : bool :=
  match Quadrant.stations quad with
  | [] => false
  | _ :: _ => true
  end.

(** The recursive call on a quadrant returns [r]. *)
Definition solvedBy
    (recurse : list SeismicStation.t -> GeoBounds.t -> option EpicenterResult.t)
    (quad : Quadrant.t) (r : EpicenterResult.t) : Prop :=
  recurse (Quadrant.stations quad) (Quadrant.bounds quad) = Some r.

(** The argument vectors of the calls of [weightedCombination] made during
    one run, in the order of the calls. *)
Definition CombineLog : Type := list (list EpicenterResult.t).

(** [locateEpicenter] again, returning next to its result the log of the
    combiner calls of the run. *)
Definition solve_step_log
    (recurse : list SeismicStation.t -> GeoBounds.t
               -> option (EpicenterResult.t * CombineLog))
    (acc : option (list EpicenterResult.t * CombineLog)) (quad : Quadrant.t)
    : option (list EpicenterResult.t * CombineLog) :=
  match acc with
  | None => None
  | Some (results, log) =>
      match Quadrant.stations quad with
      | [] => Some (results, log)
      | _ :: _ =>
          match recurse (Quadrant.stations quad) (Quadrant.bounds quad) with
          | Some (result, sublog) => Some (results ++ [result], log ++ sublog)
          | None => None
          end
      end
  end.

Definition solveQuadrantsLog
    (recurse : list SeismicStation.t -> GeoBounds.t
               -> option (EpicenterResult.t * CombineLog))
    (quads : list Quadrant.t) : option (list EpicenterResult.t * CombineLog) :=
  fold_left (solve_step_log recurse) quads (Some ([], [])).

Fixpoint locateEpicenterLog (fuel : nat) (stations : list SeismicStation.t)
    (bounds : GeoBounds.t) : option (EpicenterResult.t * CombineLog) :=
  match fuel with
  | O => None
  | S fuel' =>
      if (length stations <=? BASE_CASE_SIZE)%nat
      then Some (simpleTriangulation stations, [])
      else
        let quads := partitionStations stations (quadrants bounds) in
        match solveQuadrantsLog (locateEpicenterLog fuel') quads with
        | Some (results, log) =>
            Some (weightedCombination results, log ++ [results])
        | None => None
        end
  end.

(** The accumulator [total_weight] at the end of the combiner's loop. *)
Definition totalWeight (results : list EpicenterResult.t) : R :=
  fst (fst (fst (combine_loop results))).

(** What a well-defined call of the combiner receives. *)
Definition positiveCall (results : list EpicenterResult.t) : Prop :=
  results <> []
  /\ Forall (fun e => 0 < EpicenterResult.confidence e) results
  /\ 0 < totalWeight results.

(** ** A run on nine stations *)

(** Nine stations on a three by three grid in the region [0,4] x [0,4],
    all detected at time 0. *)
Definition gridStation (lat lon : R) (n : Z) : SeismicStation.t :=
  SeismicStation.mk lat lon 0 n.

Definition gridStations : list SeismicStation.t :=
  [ gridStation 1 1 0; gridStation 1 2 1; gridStation 1 3 2;
    gridStation 2 1 3; gridStation 2 2 4; gridStation 2 3 5;
    gridStation 3 1 6; gridStation 3 2 7; gridStation 3 3 8 ].

Definition gridRegion : GeoBounds.t := GeoBounds.mk 0 4 0 4.

(** The buckets of the grid, the results of their base cases, and the
    quadrants after the partition loop. *)
Definition gridSW : list SeismicStation.t :=
  [ gridStation 1 1 0; gridStation 1 2 1; gridStation 2 1 3;
    gridStation 2 2 4 ].
Definition gridSE : list SeismicStation.t :=
  [ gridStation 1 3 2; gridStation 2 3 5 ].
Definition gridNW : list SeismicStation.t :=
  [ gridStation 3 1 6; gridStation 3 2 7 ].
Definition gridNE : list SeismicStation.t := [ gridStation 3 3 8 ].

Definition gridResults : list EpicenterResult.t :=
  [ simpleTriangulation gridSW; simpleTriangulation gridSE;
    simpleTriangulation gridNW; simpleTriangulation gridNE ].

Definition gridQuadrants : list Quadrant.t :=
  map (fun qs : Quadrant.t * list SeismicStation.t =>
         Quadrant.mk (Quadrant.bounds (fst qs)) (snd qs)
                     (Quadrant.estimate (fst qs))
                     (Quadrant.confidence (fst qs)))
      (combine (quadrants gridRegion) [gridSW; gridSE; gridNW; gridNE]).

(** ** Stations at one place *)

(** Two stations at the same coordinates. *)
Definition samePlace (s t : SeismicStation.t) : bool :=
  if Req_dec_T (latitude s) (latitude t)
  then if Req_dec_T (longitude s) (longitude t) then true else false
  else false.

(** The stations of a vector that stand where [s] stands. *)
Definition crowd (s : SeismicStation.t) (stations : list SeismicStation.t)
    : list SeismicStation.t :=
  filter (samePlace s) stations.

(** Nine stations at (1,1) in the region [0,10] x [0,10]. *)
Definition crowdedStations : list SeismicStation.t :=
  map (fun n => SeismicStation.mk 1 1 0 n) [0; 1; 2; 3; 4; 5; 6; 7; 8]%Z.

Definition crowdedRegion : GeoBounds.t := GeoBounds.mk 0 10 0 10.

(** * Further vocabulary *)

(** A point inside a region, bounds included. *)
Definition insideRegion (b : GeoBounds.t) (p : Point.t) : Prop :=
  GeoBounds.min_lat b <= Point.x p <= GeoBounds.max_lat b
  /\ GeoBounds.min_lon b <= Point.y p <= GeoBounds.max_lon b.

(** The quadrant of a station of the region, read off the two split lines:
    south before north, west before east. *)
Definition quadrantIndex (bounds : GeoBounds.t) (s : SeismicStation.t) : nat :=
  if double_le (latitude s) (Point.x (GeoBounds.center bounds))
  then if double_le (longitude s) (Point.y (GeoBounds.center bounds))
       then 0 else 1
  else if double_le (longitude s) (Point.y (GeoBounds.center bounds))
       then 2 else 3.


Definition twinStations : list SeismicStation.t :=
  [ SeismicStation.mk 1 1 0 0; SeismicStation.mk 1 1 3 1 ].

(** The report [t] is the report [s] with the clock moved by [c]; the
    station number is free. *)
Definition shifted (c : R) (s t : SeismicStation.t) : Prop :=
  latitude t = latitude s
  /\ longitude t = longitude s
  /\ detection_time t = detection_time s + c.

(** Two quadrants with the same region and the same reports up to the
    clock. *)
Definition quadShifted (c : R) (q1 q2 : Quadrant.t) : Prop :=
  Quadrant.bounds q2 = Quadrant.bounds q1
  /\ Forall2 (shifted c) (Quadrant.stations q1) (Quadrant.stations q2).

(** The report of a station on a clock that is [c] ahead. *)
Definition delay (c : R) (s : SeismicStation.t) : SeismicStation.t :=
  SeismicStation.mk (latitude s) (longitude s) (detection_time s + c)
                    (SeismicStation.id s).

(** The same report under another station number. *)
Definition renumber (n : Z) (s : SeismicStation.t) : SeismicStation.t :=
  SeismicStation.mk (latitude s) (longitude s) (detection_time s) n.

(** * The data generator *)

(** [generateEarthquakeData] draws from a random engine.  The engine is a
    parameter: [uniform a b k] is the value that the [k]-th draw of the run
    returns when it is made through a [uniform_real_distribution] on
    [a, b]; the count of draws made so far is the state of the engine, and
    it is passed along the loop. *)
Definition Sampler : Type := R -> R -> nat -> R.

(** The loop body: two draws for the place, one for the noise. *)
Definition generate_step (uniform : Sampler) (true_epicenter : Point.t)
    (region : GeoBounds.t) (i : Z) (gen : nat) : SeismicStation.t :=
  let lat :=
    uniform (GeoBounds.min_lat region) (GeoBounds.max_lat region) gen in
  let lon :=
    uniform (GeoBounds.min_lon region) (GeoBounds.max_lon region) (S gen) in
  let distance := Point.distance true_epicenter (Point.mk lat lon) in
  let travel_time := distance / WAVE_VELOCITY in
  let detected_time := travel_time + uniform (-0.5) 0.5 (S (S gen)) in
  SeismicStation.mk lat lon detected_time i.

(** The loop [for (int i = 0; i < num_stations; i++)], with [remaining]
    iterations to go. *)
Fixpoint generate_loop (uniform : Sampler) (true_epicenter : Point.t)
    (region : GeoBounds.t) (remaining : nat) (i : Z) (gen : nat)
    (stations : list SeismicStation.t) : list SeismicStation.t :=
  match remaining with
  | O => stations
  | S remaining' =>
      generate_loop uniform true_epicenter region remaining' (i + 1)%Z
        (3 + gen)%nat
        (stations ++ [generate_step uniform true_epicenter region i gen])
  end.

Definition generateEarthquakeData (uniform : Sampler) (num_stations : Z)
    (true_epicenter : Point.t) (region : GeoBounds.t)
    : list SeismicStation.t :=
  generate_loop uniform true_epicenter region (Z.to_nat num_stations) 0 0 [].

(** What [uniform_real_distribution] promises: a value of its interval. *)
Definition inRange (uniform : Sampler) : Prop :=
  forall a b k, a <= b -> a <= uniform a b k <= b.

(** A sampler that returns the middle of its interval, for examples. *)
Definition midpointSampler : Sampler := fun a b _ => (a + b) / 2.

(** Two quadrants with the same region and the same reports in some
    order. *)
Definition quadPermuted (q1 q2 : Quadrant.t) : Prop :=
  Quadrant.bounds q2 = Quadrant.bounds q1
  /\ Permutation (Quadrant.stations q1) (Quadrant.stations q2).

(** * Levels of subdivision *)

(** The recursion on [stations] and [bounds] is over after at most [d]
    levels of subdivision: the call is a base case, or every bucket of its
    partition is empty or is over after at most [d - 1] levels. *)
Fixpoint splitsWithin (d : nat) (stations : list SeismicStation.t)
    (bounds : GeoBounds.t) : Prop :=
  (length stations <= BASE_CASE_SIZE)%nat
  \/ Forall (fun quad =>
               Quadrant.stations quad = []
               \/ match d with
                  | O => False
                  | S d' =>
                      splitsWithin d' (Quadrant.stations quad)
                                   (Quadrant.bounds quad)
                  end)
            (partitionStations stations (quadrants bounds)).

(** The four boxes of the midpoint split, in the order SW, SE, NW, NE. *)
Definition midpointBoxes (bounds : GeoBounds.t) : list GeoBounds.t :=
  let mid_lat := (GeoBounds.min_lat bounds + GeoBounds.max_lat bounds) / 2 in
  let mid_lon := (GeoBounds.min_lon bounds + GeoBounds.max_lon bounds) / 2 in
  [ GeoBounds.mk (GeoBounds.min_lat bounds) mid_lat
                 (GeoBounds.min_lon bounds) mid_lon;
    GeoBounds.mk (GeoBounds.min_lat bounds) mid_lat
                 mid_lon (GeoBounds.max_lon bounds);
    GeoBounds.mk mid_lat (GeoBounds.max_lat bounds)
                 (GeoBounds.min_lon bounds) mid_lon;
    GeoBounds.mk mid_lat (GeoBounds.max_lat bounds)
                 mid_lon (GeoBounds.max_lon bounds) ].

(** A region that holds the grid in its SW quadrant. *)
Definition wideRegion : GeoBounds.t := GeoBounds.mk 0 8 0 8.

(** * The program on IEEE doubles

    The same functions once more, with [double] read as the binary64 numbers
    of the machine ([PrimFloat]: round to nearest even, infinities and NaN),
    to evaluate the program at concrete inputs where overflow or rounding
    makes it leave exact arithmetic. *)

Set Warnings "-inexact-float".

Module IEEE.
Local Open Scope float_scope.

(** [a >= b] on doubles; false when either side is NaN. *)
Definition double_ge (a b : float) : bool := b <=? a.

(** [std::min(a, b)] is [(b < a) ? b : a]. *)
Definition std_min (a b : float) : float := if b <? a then b else a.

(** The conversion of [size()] to [double]. *)
Definition of_size (n : nat) : float :=
  PrimFloat.of_uint63 (Uint63.of_Z (Z.of_nat n)).

Module SeismicStation.
Record t := mk {
  latitude : float;
  longitude : float;
  detection_time : float;
  id : Z
}.
End SeismicStation.

Module Point.
Record t := mk { x : float; y : float }.

Definition distance (self other : t) : float :=
  PrimFloat.sqrt ((x self - x other) * (x self - x other)
                  + (y self - y other) * (y self - y other)).
End Point.

Module GeoBounds.
Record t := mk {
  min_lat : float;
  max_lat : float;
  min_lon : float;
  max_lon : float
}.

Definition center (self : t) : Point.t :=
  Point.mk ((min_lat self + max_lat self) / 2)
           ((min_lon self + max_lon self) / 2).

Definition contains (self : t) (station : SeismicStation.t) : bool :=
  double_ge (SeismicStation.latitude station) (min_lat self)
  && (SeismicStation.latitude station <=? max_lat self)
  && double_ge (SeismicStation.longitude station) (min_lon self)
  && (SeismicStation.longitude station <=? max_lon self).
End GeoBounds.

Module Quadrant.
Record t := mk {
  bounds : GeoBounds.t;
  stations : list SeismicStation.t;
  estimate : Point.t;
  confidence : float
}.

Definition new (b : GeoBounds.t) : t := mk b [] (Point.mk 0 0) 0.

Definition push_back (quad : t) (station : SeismicStation.t) : t :=
  mk (bounds quad) (stations quad ++ [station]) (estimate quad)
     (confidence quad).
End Quadrant.

Module EpicenterResult.
Record t := mk { location : Point.t; confidence : float; error : float }.
End EpicenterResult.

Definition WAVE_VELOCITY : float := 6.

Definition min_time_loop (stations : list SeismicStation.t) (init : float)
    : float :=
  fold_left (fun min_time station =>
               std_min min_time (SeismicStation.detection_time station))
            stations init.

Definition weight_step (min_time : float) (acc : float * float * float)
    (station : SeismicStation.t) : float * float * float :=
  let '(sum_x, sum_y, total_weight) := acc in
  let time_diff := SeismicStation.detection_time station - min_time in
  let weight := 1 / (1 + time_diff * time_diff) in
  (sum_x + SeismicStation.latitude station * weight,
   sum_y + SeismicStation.longitude station * weight,
   total_weight + weight).

Definition weight_loop (min_time : float) (stations : list SeismicStation.t)
    : float * float * float :=
  fold_left (weight_step min_time) stations (0, 0, 0).

Definition error_step (estimated_center : Point.t) (min_time : float)
    (error : float) (station : SeismicStation.t) : float :=
  let distance :=
    Point.distance estimated_center
                   (Point.mk (SeismicStation.latitude station)
                             (SeismicStation.longitude station)) in
  let theoretical_time := distance / WAVE_VELOCITY in
  let actual_time := SeismicStation.detection_time station - min_time in
  error + (theoretical_time - actual_time) * (theoretical_time - actual_time).

Definition error_loop (estimated_center : Point.t) (min_time : float)
    (stations : list SeismicStation.t) : float :=
  fold_left (error_step estimated_center min_time) stations 0.

Definition simpleTriangulation (stations : list SeismicStation.t)
    : EpicenterResult.t :=
  match stations with
  | [] => EpicenterResult.mk (Point.mk 0 0) 0 1e9
  | [s0] =>
      EpicenterResult.mk
        (Point.mk (SeismicStation.latitude s0) (SeismicStation.longitude s0))
        1 0
  | s0 :: _ =>
      let min_time :=
        min_time_loop stations (SeismicStation.detection_time s0) in
      let '(sum_x, sum_y, total_weight) := weight_loop min_time stations in
      let estimated_center :=
        Point.mk (sum_x / total_weight) (sum_y / total_weight) in
      let error := error_loop estimated_center min_time stations in
      let confidence := 1 / (1 + error / of_size (length stations)) in
      EpicenterResult.mk estimated_center confidence error
  end.

Definition combine_step (acc : float * float * float * float)
    (result : EpicenterResult.t) : float * float * float * float :=
  let '(total_weight, weighted_x, weighted_y, combined_error) := acc in
  let weight := EpicenterResult.confidence result in
  (total_weight + weight,
   weighted_x + Point.x (EpicenterResult.location result) * weight,
   weighted_y + Point.y (EpicenterResult.location result) * weight,
   combined_error + EpicenterResult.error result * weight).

Definition combine_loop (results : list EpicenterResult.t)
    : float * float * float * float :=
  fold_left combine_step results (0, 0, 0, 0).

Definition weightedCombination (results : list EpicenterResult.t)
    : EpicenterResult.t :=
  match results with
  | [] => EpicenterResult.mk (Point.mk 0 0) 0 1e9
  | [r] => r
  | _ =>
      let '(total_weight, weighted_x, weighted_y, combined_error) :=
        combine_loop results in
      let combined_location :=
        Point.mk (weighted_x / total_weight) (weighted_y / total_weight) in
      let combined_confidence := total_weight / of_size (length results) in
      EpicenterResult.mk combined_location combined_confidence
                         (combined_error / total_weight)
  end.

Definition quadrants (bounds : GeoBounds.t) : list Quadrant.t :=
  let mid_lat := (GeoBounds.min_lat bounds + GeoBounds.max_lat bounds) / 2 in
  let mid_lon := (GeoBounds.min_lon bounds + GeoBounds.max_lon bounds) / 2 in
  [ Quadrant.new (GeoBounds.mk (GeoBounds.min_lat bounds) mid_lat
                               (GeoBounds.min_lon bounds) mid_lon);
    Quadrant.new (GeoBounds.mk (GeoBounds.min_lat bounds) mid_lat
                               mid_lon (GeoBounds.max_lon bounds));
    Quadrant.new (GeoBounds.mk mid_lat (GeoBounds.max_lat bounds)
                               (GeoBounds.min_lon bounds) mid_lon);
    Quadrant.new (GeoBounds.mk mid_lat (GeoBounds.max_lat bounds)
                               mid_lon (GeoBounds.max_lon bounds)) ].

Fixpoint assignStation (station : SeismicStation.t) (quads : list Quadrant.t)
    : list Quadrant.t :=
  match quads with
  | [] => []
  | quad :: rest =>
      if GeoBounds.contains (Quadrant.bounds quad) station
      then Quadrant.push_back quad station :: rest
      else quad :: assignStation station rest
  end.

Definition partitionStations (stations : list SeismicStation.t)
    (quads : list Quadrant.t) : list Quadrant.t :=
  fold_left (fun quads station => assignStation station quads) stations quads.

Definition solve_step
    (recurse : list SeismicStation.t -> GeoBounds.t -> option EpicenterResult.t)
    (acc : option (list EpicenterResult.t)) (quad : Quadrant.t)
    : option (list EpicenterResult.t) :=
  match acc with
  | None => None
  | Some results =>
      match Quadrant.stations quad with
      | [] => Some results
      | _ :: _ =>
          match recurse (Quadrant.stations quad) (Quadrant.bounds quad) with
          | Some result => Some (results ++ [result])
          | None => None
          end
      end
  end.

Definition solveQuadrants
    (recurse : list SeismicStation.t -> GeoBounds.t -> option EpicenterResult.t)
    (quads : list Quadrant.t) : option (list EpicenterResult.t) :=
  fold_left (solve_step recurse) quads (Some []).

Fixpoint locateEpicenter (fuel : nat) (stations : list SeismicStation.t)
    (bounds : GeoBounds.t) : option EpicenterResult.t :=
  match fuel with
  | O => None
  | S fuel' =>
      if (length stations <=? BASE_CASE_SIZE)%nat
      then Some (simpleTriangulation stations)
      else
        let quads := partitionStations stations (quadrants bounds) in
        match solveQuadrants (locateEpicenter fuel') quads with
        | Some results => Some (weightedCombination results)
        | None => None
        end
  end.

(** Neither infinite nor NaN. *)
Definition finite (a : float) : bool :=
  negb (PrimFloat.is_nan a) && negb (PrimFloat.is_infinity a).

Definition finiteStation (s : SeismicStation.t) : bool :=
  finite (SeismicStation.latitude s) && finite (SeismicStation.longitude s)
  && finite (SeismicStation.detection_time s).

(** Two stations at (0,0) that detect at times 0 and [t]. *)
Definition pair_at_origin (t : float) : list SeismicStation.t :=
  [ SeismicStation.mk 0 0 0 0; SeismicStation.mk 0 0 t 1 ].

(** Ten stations in the region [0,4] x [0,4]: five at (1,1) and five at
    (3,3), in each group four detecting at time 0 and one at time 1e160. *)
Definition cluster (lat lon : float) (first : Z)
    : list SeismicStation.t :=
  [ SeismicStation.mk lat lon 0 first;
    SeismicStation.mk lat lon 0 (first + 1);
    SeismicStation.mk lat lon 0 (first + 2);
    SeismicStation.mk lat lon 0 (first + 3);
    SeismicStation.mk lat lon 1e160 (first + 4) ].

Definition lateStations : list SeismicStation.t :=
  cluster 1 1 0 ++ cluster 3 3 5.

Definition smallRegion : GeoBounds.t := GeoBounds.mk 0 4 0 4.

(** A region near the top of the doubles, and a station north of it. *)
Definition hugeRegion : GeoBounds.t := GeoBounds.mk 1e308 1.7e308 0 1.

Definition northOfHuge : SeismicStation.t :=
  SeismicStation.mk 1.75e308 0 0 0.

(** The accumulator [total_weight] at the end of the combiner's loop. *)
Definition totalWeight (results : list EpicenterResult.t) : float :=
  fst (fst (fst (combine_loop results))).

(** The estimates that the top call hands to [weightedCombination]. *)
Definition handedToCombiner (stations : list SeismicStation.t)
    (bounds : GeoBounds.t) : option (list EpicenterResult.t) :=
  solveQuadrants (locateEpicenter 1)
                 (partitionStations stations (quadrants bounds)).

(** Nine stations on two corners of a region spanned by neighbouring
    doubles: five at the lower corner, four at the upper one. *)
Definition tightLow : float := 0.3.
Definition tightHigh : float := PrimFloat.next_up 0.3.

Definition tightRegion : GeoBounds.t :=
  GeoBounds.mk tightLow tightHigh tightLow tightHigh.

Definition tightStations : list SeismicStation.t :=
  [ SeismicStation.mk tightLow tightLow 0 0;
    SeismicStation.mk tightLow tightLow 0 1;
    SeismicStation.mk tightLow tightLow 0 2;
    SeismicStation.mk tightLow tightLow 0 3;
    SeismicStation.mk tightLow tightLow 0 4;
    SeismicStation.mk tightHigh tightHigh 0 5;
    SeismicStation.mk tightHigh tightHigh 0 6;
    SeismicStation.mk tightHigh tightHigh 0 7;
    SeismicStation.mk tightHigh tightHigh 0 8 ].

(** The quadrants after the partition of [tightStations]: SW holds them
    all and has the bounds of the region. *)
Definition tightQuadrants : list Quadrant.t :=
  [ Quadrant.mk tightRegion tightStations (Point.mk 0 0) 0;
    Quadrant.new (GeoBounds.mk tightLow tightHigh tightHigh tightHigh);
    Quadrant.new (GeoBounds.mk tightHigh tightHigh tightLow tightHigh);
    Quadrant.new (GeoBounds.mk tightHigh tightHigh tightHigh tightHigh) ].

(** The pairs at the origin used below. *)
Definition overflowPair : list SeismicStation.t := pair_at_origin 1e200.
Definition nanoPair : list SeismicStation.t := pair_at_origin 1e-9.
Definition twoNanoPair : list SeismicStation.t := pair_at_origin 2e-9.

End IEEE.

(** * Properties *)

(** ** Base cases of the driver *)

(** C7: for exactly one station [s] and any region, [locateEpicenter]
    returns the station's coordinates as location, confidence 1 and
    error 0 (with any non-zero fuel). *)
Theorem locateEpicenter_single_station :
  forall (s : SeismicStation.t) (bounds : GeoBounds.t) (fuel : nat),
    locateEpicenter (S fuel) [s] bounds
    = Some (EpicenterResult.mk (Point.mk (latitude s) (longitude s)) 1 0).
Proof. intros s bounds fuel. reflexivity. Qed.

(** C8: for the empty station list and any region, [locateEpicenter]
    returns the sentinel: location (0,0), confidence 0, error 1e9. *)
Theorem locateEpicenter_empty_sentinel :
  forall (bounds : GeoBounds.t) (fuel : nat),
    locateEpicenter (S fuel) [] bounds
    = Some (EpicenterResult.mk (Point.mk 0 0) 0 1e9).
Proof. intros bounds fuel. reflexivity. Qed.

(** C9: for a station list of at most [BASE_CASE_SIZE] = 8 stations and any
    region, [locateEpicenter] returns exactly what [simpleTriangulation]
    returns on the same list. *)
Theorem locateEpicenter_base_case :
  forall (stations : list SeismicStation.t) (bounds : GeoBounds.t)
         (fuel : nat),
    (length stations <= 8)%nat ->
    locateEpicenter (S fuel) stations bounds
    = Some (simpleTriangulation stations).
Proof.
  intros stations bounds fuel Hlen. simpl.
  destruct (Nat.leb_spec (length stations) BASE_CASE_SIZE) as [_ | Hgt].
  - reflexivity.
  - unfold BASE_CASE_SIZE in Hgt. lia.
Qed.

(** ** Reading the boolean tests *)

Lemma double_le_true (a b : R) : double_le a b = true <-> a <= b.
Proof.
  unfold double_le. destruct (Rle_dec a b); split; intros; auto; discriminate.
Qed.

Lemma double_ge_true (a b : R) : double_ge a b = true <-> b <= a.
Proof.
  unfold double_ge. destruct (Rge_dec a b) as [H | H]; split; intros H';
    auto; try discriminate; [lra | exfalso; apply H; lra].
Qed.

Lemma double_lt_true (a b : R) : double_lt a b = true <-> a < b.
Proof.
  unfold double_lt. destruct (Rlt_dec a b); split; intros; auto; discriminate.
Qed.

Lemma contains_spec (b : GeoBounds.t) (s : SeismicStation.t) :
  GeoBounds.contains b s = true <->
  (GeoBounds.min_lat b <= latitude s <= GeoBounds.max_lat b
   /\ GeoBounds.min_lon b <= longitude s <= GeoBounds.max_lon b).
Proof.
  unfold GeoBounds.contains.
  rewrite !andb_true_iff, !double_ge_true, !double_le_true. tauto.
Qed.

Lemma contains_false (b : GeoBounds.t) (s : SeismicStation.t) :
  GeoBounds.contains b s = false <->
  ~ (GeoBounds.min_lat b <= latitude s <= GeoBounds.max_lat b
     /\ GeoBounds.min_lon b <= longitude s <= GeoBounds.max_lon b).
Proof.
  rewrite <- contains_spec. destruct (GeoBounds.contains b s); split;
    intros H; try discriminate; auto. exfalso. apply H. reflexivity.
Qed.

(** Settles the containment tests of a goal over concrete coordinates. *)
Ltac decide_contains :=
  repeat match goal with
  | |- context [GeoBounds.contains ?b ?s] =>
      first [ rewrite (proj2 (contains_spec b s)) by (simpl; lra)
            | rewrite (proj2 (contains_false b s)) by (simpl; lra) ]
  end.

(** ** The split of a region *)

Lemma contains_quadrant_cases (bounds : GeoBounds.t) (s : SeismicStation.t) :
  GeoBounds.contains bounds s = true ->
  existsb (fun q => GeoBounds.contains q s) (quadrantBounds bounds) = true.
Proof.
  intros H. apply contains_spec in H.
  apply existsb_exists.
  destruct (Rle_dec (latitude s) (mid_lat bounds)) as [Hlat | Hlat];
    destruct (Rle_dec (longitude s) (mid_lon bounds)) as [Hlon | Hlon];
    unfold mid_lat, mid_lon in *; simpl in *.
  - eexists; split; [left; reflexivity |].
    apply contains_spec; simpl; lra.
  - eexists; split; [right; left; reflexivity |].
    apply contains_spec; simpl; lra.
  - eexists; split; [right; right; left; reflexivity |].
    apply contains_spec; simpl; lra.
  - eexists; split; [right; right; right; left; reflexivity |].
    apply contains_spec; simpl; lra.
Qed.

Lemma quadrant_inside_parent (bounds q : GeoBounds.t) (s : SeismicStation.t) :
  In q (quadrantBounds bounds) ->
  GeoBounds.contains q s = true ->
  GeoBounds.contains bounds s = true.
Proof.
  intros Hin Hq. apply contains_spec in Hq. apply contains_spec.
  simpl in Hin.
  destruct Hin as [<- | [<- | [<- | [<- | []]]]]; simpl in Hq; lra.
Qed.

(** C6: splitting a region at its midpoint latitude and longitude gives
    exactly four quadrants, SW, SE, NW and NE, without stations, whose
    regions are the four boxes cut out of the region by the two midpoint
    lines [(min + max) / 2]; in exact arithmetic a station is inside the
    parent region exactly when it is inside one of the quadrants (the union
    of the quadrants is the parent), and two different quadrants share only
    stations that lie on a midpoint line.  The invariant [min <= max] of the
    region is not needed: the statement holds for every region. *)
Theorem quadrants_cover_parent :
  forall bounds : GeoBounds.t,
    length (quadrants bounds) = 4%nat
    /\ (forall s : SeismicStation.t,
          GeoBounds.contains bounds s
          = existsb (fun q => GeoBounds.contains (Quadrant.bounds q) s)
                    (quadrants bounds))
    /\ (forall (i j : nat) (qi qj : Quadrant.t) (s : SeismicStation.t),
          i <> j ->
          nth_error (quadrants bounds) i = Some qi ->
          nth_error (quadrants bounds) j = Some qj ->
          GeoBounds.contains (Quadrant.bounds qi) s = true ->
          GeoBounds.contains (Quadrant.bounds qj) s = true ->
          latitude s = Point.x (GeoBounds.center bounds)
          \/ longitude s = Point.y (GeoBounds.center bounds))
    /\ (let mid_lat := Point.x (GeoBounds.center bounds) in
        let mid_lon := Point.y (GeoBounds.center bounds) in
        map Quadrant.bounds (quadrants bounds)
        = [ GeoBounds.mk (GeoBounds.min_lat bounds) mid_lat
                         (GeoBounds.min_lon bounds) mid_lon;
            GeoBounds.mk (GeoBounds.min_lat bounds) mid_lat
                         mid_lon (GeoBounds.max_lon bounds);
            GeoBounds.mk mid_lat (GeoBounds.max_lat bounds)
                         (GeoBounds.min_lon bounds) mid_lon;
            GeoBounds.mk mid_lat (GeoBounds.max_lat bounds)
                         mid_lon (GeoBounds.max_lon bounds) ]
        /\ mid_lat = (GeoBounds.min_lat bounds + GeoBounds.max_lat bounds) / 2
        /\ mid_lon = (GeoBounds.min_lon bounds + GeoBounds.max_lon bounds) / 2
        /\ Forall (fun q => Quadrant.stations q = []) (quadrants bounds)).
Proof.
  intros bounds. split; [reflexivity | split; [| split]].
  - intros s.
    destruct (GeoBounds.contains bounds s) eqn:Hc.
    + symmetry. apply contains_quadrant_cases in Hc.
      simpl in Hc |- *. exact Hc.
    + symmetry. apply not_true_is_false. intros Hex.
      apply existsb_exists in Hex. destruct Hex as [q [Hin Hq]].
      assert (Hp : GeoBounds.contains bounds s = true).
      { apply (quadrant_inside_parent bounds (Quadrant.bounds q)); auto.
        unfold quadrantBounds. apply in_map. exact Hin. }
      congruence.
  - intros i j qi qj s Hij Hi Hj Hci Hcj.
    apply contains_spec in Hci. apply contains_spec in Hcj.
    destruct i as [| [| [| [| i]]]]; simpl in Hi;
      try (destruct i; discriminate);
      injection Hi as <-;
      (destruct j as [| [| [| [| j]]]]; simpl in Hj;
       try (destruct j; discriminate);
       injection Hj as <-);
      try congruence; simpl in *; lra.
  - repeat split. repeat constructor.
Qed.

(** ** The partition of the stations *)

Lemma firstContaining_none (regions : list GeoBounds.t) (s : SeismicStation.t) :
  firstContaining regions s = None <->
  existsb (fun b => GeoBounds.contains b s) regions = false.
Proof.
  induction regions as [| b rest IH]; simpl.
  - tauto.
  - destruct (GeoBounds.contains b s); simpl.
    + split; discriminate.
    + rewrite <- IH. destruct (firstContaining rest s); simpl;
        split; intros; congruence.
Qed.

Lemma firstContaining_some (regions : list GeoBounds.t) (s : SeismicStation.t)
    (i : nat) :
  firstContaining regions s = Some i ->
  exists b, nth_error regions i = Some b
            /\ GeoBounds.contains b s = true
            /\ forall j b', (j < i)%nat -> nth_error regions j = Some b' ->
                            GeoBounds.contains b' s = false.
Proof.
  revert i. induction regions as [| b rest IH]; simpl; intros i H.
  - discriminate.
  - destruct (GeoBounds.contains b s) eqn:Hb.
    + injection H as <-. exists b. repeat split; auto. intros j b' Hj. lia.
    + destruct (firstContaining rest s) as [k |] eqn:Hk; simpl in H;
        [| discriminate].
      injection H as <-. destruct (IH k eq_refl) as [b0 [Hn [Hc Hfirst]]].
      exists b0. repeat split; auto.
      intros [| j] b' Hj Hnth; simpl in Hnth.
      * congruence.
      * apply (Hfirst j); auto. lia.
Qed.

Lemma nth_error_lt {A : Type} (l : list A) (i : nat) (a : A) :
  nth_error l i = Some a -> (i < length l)%nat.
Proof. intros H. apply nth_error_Some. congruence. Qed.

Lemma assignStation_bounds (s : SeismicStation.t) (quads : list Quadrant.t) :
  map Quadrant.bounds (assignStation s quads) = map Quadrant.bounds quads.
Proof.
  induction quads as [| q rest IH]; simpl; auto.
  destruct (GeoBounds.contains (Quadrant.bounds q) s); simpl; congruence.
Qed.

Lemma assignStation_nth (s : SeismicStation.t) (quads : list Quadrant.t)
    (i : nat) (q : Quadrant.t) :
  nth_error quads i = Some q ->
  exists q', nth_error (assignStation s quads) i = Some q'
             /\ Quadrant.bounds q' = Quadrant.bounds q
             /\ Quadrant.stations q'
                = Quadrant.stations q
                  ++ (if goesTo (map Quadrant.bounds quads) i s
                      then [s] else []).
Proof.
  unfold goesTo. revert i.
  induction quads as [| q0 rest IH]; intros i Hn.
  - destruct i; discriminate.
  - simpl. destruct (GeoBounds.contains (Quadrant.bounds q0) s) eqn:Hc.
    + destruct i as [| i]; simpl in *.
      * injection Hn as <-. eexists; repeat split.
      * exists q. rewrite app_nil_r. auto.
    + destruct i as [| i]; simpl in *.
      * injection Hn as <-. exists q0.
        destruct (firstContaining (map Quadrant.bounds rest) s); simpl;
          rewrite app_nil_r; auto.
      * destruct (IH i Hn) as [q' [H1 [H2 H3]]]. exists q'.
        repeat split; auto. rewrite H3.
        destruct (firstContaining (map Quadrant.bounds rest) s); reflexivity.
Qed.

Lemma assignStation_count (s : SeismicStation.t) (quads : list Quadrant.t) :
  stationCount (assignStation s quads)
  = (stationCount quads
     + match firstContaining (map Quadrant.bounds quads) s with
       | Some _ => 1
       | None => 0
       end)%nat.
Proof.
  unfold stationCount. induction quads as [| q rest IH]; simpl; auto.
  destruct (GeoBounds.contains (Quadrant.bounds q) s); simpl.
  - rewrite length_app. simpl. lia.
  - rewrite IH.
    destruct (firstContaining (map Quadrant.bounds rest) s); simpl; lia.
Qed.

Lemma partitionStations_bounds (stations : list SeismicStation.t)
    (quads : list Quadrant.t) :
  map Quadrant.bounds (partitionStations stations quads)
  = map Quadrant.bounds quads.
Proof.
  unfold partitionStations. revert quads.
  induction stations as [| s rest IH]; intros quads; simpl; auto.
  rewrite IH. apply assignStation_bounds.
Qed.

Lemma partitionStations_nth (stations : list SeismicStation.t)
    (quads : list Quadrant.t) (i : nat) (q : Quadrant.t) :
  nth_error quads i = Some q ->
  exists q', nth_error (partitionStations stations quads) i = Some q'
             /\ Quadrant.bounds q' = Quadrant.bounds q
             /\ Quadrant.stations q'
                = Quadrant.stations q
                  ++ filter (goesTo (map Quadrant.bounds quads) i) stations.
Proof.
  unfold partitionStations. revert quads q.
  induction stations as [| s rest IH]; intros quads q Hn; simpl.
  - exists q. rewrite app_nil_r. auto.
  - destruct (assignStation_nth s quads i q Hn) as [q1 [H1 [H2 H3]]].
    destruct (IH _ _ H1) as [q2 [H4 [H5 H6]]].
    exists q2. repeat split; auto; try congruence.
    rewrite H6, H3, assignStation_bounds, <- app_assoc.
    destruct (goesTo (map Quadrant.bounds quads) i s); reflexivity.
Qed.

Lemma partitionStations_count (stations : list SeismicStation.t)
    (quads : list Quadrant.t) :
  Forall (fun s => firstContaining (map Quadrant.bounds quads) s <> None)
         stations ->
  stationCount (partitionStations stations quads)
  = (stationCount quads + length stations)%nat.
Proof.
  unfold partitionStations. revert quads.
  induction stations as [| s rest IH]; intros quads Hall; simpl.
  - lia.
  - inversion Hall as [| s' rest' Hs Hrest]; subst.
    rewrite IH.
    + rewrite assignStation_count.
      destruct (firstContaining (map Quadrant.bounds quads) s);
        [lia | congruence].
    + rewrite assignStation_bounds. exact Hrest.
Qed.

(** C2: when every station lies within the region, the partition loop puts
    each station into exactly one quadrant, namely the first one in the
    order SW, SE, NW, NE whose inclusive bounds contain it: the four station
    counts add up to the original count; the quadrants keep their regions,
    in that order; every station has a first containing quadrant; and the
    quadrant of index [i] receives, in the order of the input, exactly the
    stations whose first containing quadrant is [i]. *)
Theorem partition_conserves_stations :
  forall (stations : list SeismicStation.t) (bounds : GeoBounds.t),
    Forall (fun s => GeoBounds.contains bounds s = true) stations ->
    let quads := partitionStations stations (quadrants bounds) in
    let mid_lat := Point.x (GeoBounds.center bounds) in
    let mid_lon := Point.y (GeoBounds.center bounds) in
    stationCount quads = length stations
    /\ map Quadrant.bounds quads
       = [ GeoBounds.mk (GeoBounds.min_lat bounds) mid_lat
                        (GeoBounds.min_lon bounds) mid_lon;
           GeoBounds.mk (GeoBounds.min_lat bounds) mid_lat
                        mid_lon (GeoBounds.max_lon bounds);
           GeoBounds.mk mid_lat (GeoBounds.max_lat bounds)
                        (GeoBounds.min_lon bounds) mid_lon;
           GeoBounds.mk mid_lat (GeoBounds.max_lat bounds)
                        mid_lon (GeoBounds.max_lon bounds) ]
    /\ (forall s, In s stations ->
          exists i, (i < 4)%nat
                    /\ firstContaining (quadrantBounds bounds) s = Some i)
    /\ (forall i quad, nth_error quads i = Some quad ->
          Quadrant.stations quad
          = filter (goesTo (quadrantBounds bounds) i) stations).
Proof.
  intros stations bounds Hall quads mlat mlon.
  assert (Hfirst : Forall (fun s => firstContaining (quadrantBounds bounds) s
                                    <> None) stations).
  { rewrite Forall_forall in *. intros s Hs Hnone.
    apply firstContaining_none in Hnone.
    rewrite contains_quadrant_cases in Hnone; [discriminate | auto]. }
  repeat split.
  - unfold quads. rewrite partitionStations_count; auto.
  - unfold quads. rewrite partitionStations_bounds. reflexivity.
  - intros s Hs. rewrite Forall_forall in Hfirst. specialize (Hfirst s Hs).
    destruct (firstContaining (quadrantBounds bounds) s) as [i |] eqn:Hi;
      [| congruence].
    exists i. split; auto.
    destruct (firstContaining_some _ _ _ Hi) as [b [Hn _]].
    apply nth_error_lt in Hn. exact Hn.
  - intros i quad Hn.
    assert (Hlen : (i < length (quadrants bounds))%nat).
    { apply nth_error_lt in Hn. unfold quads in Hn.
      rewrite <- (length_map Quadrant.bounds), partitionStations_bounds,
        length_map in Hn. exact Hn. }
    destruct (nth_error (quadrants bounds) i) as [q0 |] eqn:Hq0.
    + destruct (partitionStations_nth stations _ i q0 Hq0)
        as [q' [H1 [H2 H3]]].
      unfold quads in Hn. rewrite H1 in Hn. injection Hn as <-.
      rewrite H3.
      assert (Hempty : Quadrant.stations q0 = []).
      { apply nth_error_In in Hq0. simpl in Hq0.
        destruct Hq0 as [<- | [<- | [<- | [<- | []]]]]; reflexivity. }
      rewrite Hempty. reflexivity.
    + apply nth_error_None in Hq0. lia.
Qed.

(** ** Sums over a vector *)

Lemma Rsum_nonneg {A : Type} (f : A -> R) (l : list A) :
  (forall a, In a l -> 0 <= f a) -> 0 <= Rsum f l.
Proof.
  induction l as [| a rest IH]; simpl; intros H.
  - lra.
  - assert (0 <= f a) by (apply H; auto).
    assert (0 <= Rsum f rest) by (apply IH; intros; apply H; auto).
    lra.
Qed.

Lemma Rsum_pos {A : Type} (f : A -> R) (l : list A) :
  l <> [] -> (forall a, In a l -> 0 < f a) -> 0 < Rsum f l.
Proof.
  destruct l as [| a rest]; [congruence |]. intros _ H. simpl.
  assert (0 < f a) by (apply H; simpl; auto).
  assert (0 <= Rsum f rest).
  { apply Rsum_nonneg. intros b Hb. apply Rlt_le, H. simpl; auto. }
  lra.
Qed.

Lemma triple_eq (a b c a' b' c' : R) :
  a = a' -> b = b' -> c = c' -> (a, b, c) = (a', b', c').
Proof. congruence. Qed.

Lemma quadruple_eq (a b c d a' b' c' d' : R) :
  a = a' -> b = b' -> c = c' -> d = d' -> (a, b, c, d) = (a', b', c', d').
Proof. congruence. Qed.

(** ** The combiner *)

Lemma combine_loop_from (results : list EpicenterResult.t) (w wx wy e : R) :
  fold_left combine_step results (w, wx, wy, e)
  = (w + Rsum EpicenterResult.confidence results,
     wx + Rsum (conf_weighted result_x) results,
     wy + Rsum (conf_weighted result_y) results,
     e + Rsum (conf_weighted EpicenterResult.error) results).
Proof.
  revert w wx wy e. induction results as [| r rest IH]; intros; simpl.
  - apply quadruple_eq; ring.
  - rewrite IH. unfold conf_weighted, result_x, result_y.
    apply quadruple_eq; ring.
Qed.

Lemma combine_loop_sums (results : list EpicenterResult.t) :
  combine_loop results
  = (Rsum EpicenterResult.confidence results,
     Rsum (conf_weighted result_x) results,
     Rsum (conf_weighted result_y) results,
     Rsum (conf_weighted EpicenterResult.error) results).
Proof.
  unfold combine_loop. rewrite combine_loop_from. apply quadruple_eq; ring.
Qed.

Lemma weightedCombination_many (results : list EpicenterResult.t) :
  (2 <= length results)%nat ->
  weightedCombination results
  = EpicenterResult.mk
      (Point.mk (Rsum (conf_weighted result_x) results
                 / Rsum EpicenterResult.confidence results)
                (Rsum (conf_weighted result_y) results
                 / Rsum EpicenterResult.confidence results))
      (Rsum EpicenterResult.confidence results / INR (length results))
      (Rsum (conf_weighted EpicenterResult.error) results
       / Rsum EpicenterResult.confidence results).
Proof.
  intros Hlen.
  destruct results as [| r1 [| r2 rest]]; simpl in Hlen; try lia.
  unfold weightedCombination. rewrite combine_loop_sums. reflexivity.
Qed.

(** C5: for two or more partial estimates the combiner returns, per axis,
    the confidence-weighted average of the sub-locations, the arithmetic
    mean of the sub-confidences as confidence, and the confidence-weighted
    average of the sub-errors as error; for a single estimate it returns
    that estimate unchanged. *)
Theorem weightedCombination_formula :
  (forall r : EpicenterResult.t, weightedCombination [r] = r)
  /\ (forall results : list EpicenterResult.t,
        (2 <= length results)%nat ->
        let total := Rsum EpicenterResult.confidence results in
        let combined := weightedCombination results in
        Point.x (EpicenterResult.location combined)
        = Rsum (fun r => Point.x (EpicenterResult.location r)
                         * EpicenterResult.confidence r) results / total
        /\ Point.y (EpicenterResult.location combined)
           = Rsum (fun r => Point.y (EpicenterResult.location r)
                            * EpicenterResult.confidence r) results / total
        /\ EpicenterResult.confidence combined
           = total / INR (length results)
        /\ EpicenterResult.error combined
           = Rsum (fun r => EpicenterResult.error r
                            * EpicenterResult.confidence r) results / total).
Proof.
  split.
  - intros r. reflexivity.
  - intros results Hlen total combined. unfold combined, total.
    rewrite (weightedCombination_many results Hlen). simpl.
    repeat split; reflexivity.
Qed.

(** ** The base-case estimator *)

Lemma std_min_cases (a b : R) :
  (std_min a b = a /\ a <= b) \/ (std_min a b = b /\ b < a).
Proof.
  unfold std_min, double_lt. destruct (Rlt_dec b a); [right | left];
    split; auto; lra.
Qed.

Lemma min_time_loop_le_init (stations : list SeismicStation.t) (init : R) :
  min_time_loop stations init <= init.
Proof.
  unfold min_time_loop. revert init.
  induction stations as [| s rest IH]; intros init; simpl.
  - lra.
  - specialize (IH (std_min init (detection_time s))).
    destruct (std_min_cases init (detection_time s)) as [[E H] | [E H]];
      rewrite E in *; lra.
Qed.

Lemma min_time_loop_lower (stations : list SeismicStation.t) (init : R) :
  forall s, In s stations -> min_time_loop stations init <= detection_time s.
Proof.
  unfold min_time_loop. revert init.
  induction stations as [| s0 rest IH]; intros init s Hin; simpl in *.
  - contradiction.
  - destruct Hin as [-> | Hin].
    + pose proof (min_time_loop_le_init rest (std_min init (detection_time s)))
        as Hle. unfold min_time_loop in Hle.
      destruct (std_min_cases init (detection_time s)) as [[E H] | [E H]];
        rewrite E in *; lra.
    + apply IH. exact Hin.
Qed.

Lemma min_time_loop_attained (stations : list SeismicStation.t) (init : R) :
  min_time_loop stations init = init
  \/ In (min_time_loop stations init) (map detection_time stations).
Proof.
  unfold min_time_loop. revert init.
  induction stations as [| s rest IH]; intros init; simpl.
  - left. reflexivity.
  - destruct (IH (std_min init (detection_time s))) as [E | Hin].
    + rewrite E.
      destruct (std_min_cases init (detection_time s)) as [[E' _] | [E' _]];
        rewrite E'; auto.
    + right. right. exact Hin.
Qed.

(** [minTimeOf] is the minimum detection time of a non-empty vector. *)
Lemma minTimeOf_is_minimum (stations : list SeismicStation.t) :
  stations <> [] ->
  In (minTimeOf stations) (map detection_time stations)
  /\ forall s, In s stations -> minTimeOf stations <= detection_time s.
Proof.
  destruct stations as [| s0 rest]; [congruence |]. intros _.
  unfold minTimeOf. split.
  - destruct (min_time_loop_attained (s0 :: rest) (detection_time s0))
      as [E | Hin]; [rewrite E; simpl; auto | exact Hin].
  - apply min_time_loop_lower.
Qed.

Lemma stationWeight_product (min_time : R) (s : SeismicStation.t) :
  1 / (1 + (detection_time s - min_time) * (detection_time s - min_time))
  = stationWeight min_time s.
Proof. unfold stationWeight. f_equal. ring. Qed.

Lemma residual_product (estimate : Point.t) (min_time : R)
    (s : SeismicStation.t) :
  (Point.distance estimate (Point.mk (latitude s) (longitude s))
   / WAVE_VELOCITY - (detection_time s - min_time))
  * (Point.distance estimate (Point.mk (latitude s) (longitude s))
     / WAVE_VELOCITY - (detection_time s - min_time))
  = residual estimate min_time s.
Proof. unfold residual, stationPoint, WAVE_VELOCITY. ring. Qed.

Lemma weight_loop_from (min_time : R) (stations : list SeismicStation.t)
    (sx sy w : R) :
  fold_left (weight_step min_time) stations (sx, sy, w)
  = (sx + Rsum (fun s => latitude s * stationWeight min_time s) stations,
     sy + Rsum (fun s => longitude s * stationWeight min_time s) stations,
     w + Rsum (stationWeight min_time) stations).
Proof.
  revert sx sy w. induction stations as [| s rest IH]; intros; simpl.
  - apply triple_eq; ring.
  - rewrite IH, stationWeight_product. apply triple_eq; ring.
Qed.

Lemma weight_loop_sums (min_time : R) (stations : list SeismicStation.t) :
  weight_loop min_time stations
  = (Rsum (fun s => latitude s * stationWeight min_time s) stations,
     Rsum (fun s => longitude s * stationWeight min_time s) stations,
     Rsum (stationWeight min_time) stations).
Proof.
  unfold weight_loop. rewrite weight_loop_from. apply triple_eq; ring.
Qed.

Lemma error_loop_from (estimate : Point.t) (min_time : R)
    (stations : list SeismicStation.t) (e : R) :
  fold_left (error_step estimate min_time) stations e
  = e + Rsum (residual estimate min_time) stations.
Proof.
  revert e. induction stations as [| s rest IH]; intros; simpl.
  - ring.
  - rewrite IH. unfold error_step. rewrite residual_product. ring.
Qed.

Lemma error_loop_sum (estimate : Point.t) (min_time : R)
    (stations : list SeismicStation.t) :
  error_loop estimate min_time stations
  = Rsum (residual estimate min_time) stations.
Proof. unfold error_loop. rewrite error_loop_from. ring. Qed.

Lemma simpleTriangulation_many (stations : list SeismicStation.t) :
  (2 <= length stations)%nat ->
  let m := minTimeOf stations in
  let c := weightedCenter m stations in
  let e := Rsum (residual c m) stations in
  simpleTriangulation stations
  = EpicenterResult.mk c (1 / (1 + e / INR (length stations))) e.
Proof.
  intros Hlen.
  destruct stations as [| s0 [| s1 rest]]; simpl in Hlen; try lia.
  unfold simpleTriangulation, minTimeOf.
  rewrite weight_loop_sums, error_loop_sum. reflexivity.
Qed.

Lemma stationWeight_pos (min_time : R) (s : SeismicStation.t) :
  0 < stationWeight min_time s.
Proof.
  unfold stationWeight. apply Rdiv_lt_0_compat; [lra |].
  pose proof (pow2_ge_0 (detection_time s - min_time)). lra.
Qed.

Lemma residual_nonneg (estimate : Point.t) (min_time : R)
    (s : SeismicStation.t) :
  0 <= residual estimate min_time s.
Proof. unfold residual. apply pow2_ge_0. Qed.

Lemma INR_length_pos {A : Type} (l : list A) :
  l <> [] -> 0 < INR (length l).
Proof.
  destruct l as [| a rest]; [congruence |]. intros _.
  apply lt_0_INR. simpl. lia.
Qed.

(** Confidence as a function of the normalised error. *)
Lemma confidence_bounds (e n : R) :
  0 <= e -> 0 < n -> 0 < 1 / (1 + e / n) <= 1.
Proof.
  intros He Hn.
  assert (Hq : 0 <= e / n) by (apply Rle_mult_inv_pos; assumption).
  split.
  - apply Rdiv_lt_0_compat; lra.
  - apply (Rmult_le_reg_r (1 + e / n)); [lra |].
    unfold Rdiv at 1. rewrite Rmult_1_l, Rinv_l; lra.
Qed.

Lemma confidence_decreasing (q q' : R) :
  0 <= q -> q < q' -> 1 / (1 + q') < 1 / (1 + q).
Proof.
  intros Hq Hlt. unfold Rdiv. rewrite !Rmult_1_l.
  apply Rinv_lt_contravar; nra.
Qed.

Lemma weight_same_time (t : R) : 1 / (1 + (t - t) ^ 2) = 1.
Proof.
  replace (1 + (t - t) ^ 2) with 1 by ring. unfold Rdiv.
  rewrite Rinv_1. ring.
Qed.

(** C3: for two or more stations the estimated location is the weighted
    average of the station coordinates, the weight of a station being
    [1 / (1 + timeDiff^2)] with [timeDiff] its detection time minus the
    minimum detection time of the set (so [timeDiff >= 0] and the total
    weight is positive); and for two stations at (0,0) and (0,10) with the
    same detection time both weights are 1 and the location is (0,5). *)
Theorem simpleTriangulation_location :
  (forall stations : list SeismicStation.t,
      (2 <= length stations)%nat ->
      exists minTime : R,
        In minTime (map detection_time stations)
        /\ (forall s, In s stations -> 0 <= detection_time s - minTime)
        /\ let w := fun s => 1 / (1 + (detection_time s - minTime) ^ 2) in
           0 < Rsum w stations
           /\ EpicenterResult.location (simpleTriangulation stations)
              = Point.mk
                  (Rsum (fun s => latitude s * w s) stations / Rsum w stations)
                  (Rsum (fun s => longitude s * w s) stations
                   / Rsum w stations))
  /\ (forall (t : R) (id1 id2 : Z),
        let s1 := SeismicStation.mk 0 0 t id1 in
        let s2 := SeismicStation.mk 0 10 t id2 in
        minTimeOf [s1; s2] = t
        /\ 1 / (1 + (detection_time s1 - t) ^ 2) = 1
        /\ 1 / (1 + (detection_time s2 - t) ^ 2) = 1
        /\ EpicenterResult.location (simpleTriangulation [s1; s2])
           = Point.mk 0 5).
Proof.
  split.
  - intros stations Hlen.
    assert (Hne : stations <> [])
      by (destruct stations; simpl in *; [lia | congruence]).
    destruct (minTimeOf_is_minimum stations Hne) as [Hin Hmin].
    exists (minTimeOf stations). split; [exact Hin | split].
    + intros s Hs. specialize (Hmin s Hs). lra.
    + split.
      * apply Rsum_pos; auto. intros s _. apply stationWeight_pos.
      * rewrite (simpleTriangulation_many stations Hlen). reflexivity.
  - intros t id1 id2 s1 s2.
    assert (Hm : minTimeOf [s1; s2] = t).
    { unfold minTimeOf, min_time_loop, s1, s2. simpl.
      destruct (std_min_cases t t) as [[E _] | [E _]]; rewrite !E;
        destruct (std_min_cases t t) as [[E' _] | [E' _]]; rewrite ?E';
        reflexivity. }
    split; [exact Hm | split; [| split]].
    + unfold s1. simpl detection_time. apply weight_same_time.
    + unfold s2. simpl detection_time. apply weight_same_time.
    + rewrite simpleTriangulation_many by (simpl; lia).
      rewrite Hm. unfold weightedCenter, stationWeight, s1, s2.
      cbn [Rsum detection_time latitude longitude EpicenterResult.location].
      rewrite !weight_same_time. f_equal; lra.
Qed.

(** C4: for two or more stations the error is the sum over the stations
    (not the mean) of the squared difference between the theoretical travel
    time [distance(estimate, station) / 6.0] and [timeDiff], and the
    confidence is [1 / (1 + error / stationCount)]; in exact arithmetic the
    confidence lies in (0,1] and is strictly smaller for a strictly larger
    normalised error. *)
Theorem simpleTriangulation_error_confidence :
  forall stations : list SeismicStation.t,
    (2 <= length stations)%nat ->
    let r := simpleTriangulation stations in
    let n := INR (length stations) in
    (exists minTime : R,
        In minTime (map detection_time stations)
        /\ (forall s, In s stations -> minTime <= detection_time s)
        /\ EpicenterResult.error r
           = Rsum (fun s =>
                     (Point.distance (EpicenterResult.location r)
                                     (Point.mk (latitude s) (longitude s))
                      / 6.0
                      - (detection_time s - minTime)) ^ 2) stations)
    /\ EpicenterResult.confidence r = 1 / (1 + EpicenterResult.error r / n)
    /\ 0 < EpicenterResult.confidence r <= 1
    /\ (forall stations' : list SeismicStation.t,
          (2 <= length stations')%nat ->
          let r' := simpleTriangulation stations' in
          EpicenterResult.error r / n
          < EpicenterResult.error r' / INR (length stations') ->
          EpicenterResult.confidence r' < EpicenterResult.confidence r).
Proof.
  intros stations Hlen r n.
  assert (Hne : stations <> [])
    by (destruct stations; simpl in *; [lia | congruence]).
  assert (Hn : 0 < n) by (apply INR_length_pos; exact Hne).
  assert (Hr : r = simpleTriangulation stations) by reflexivity.
  rewrite (simpleTriangulation_many stations Hlen) in Hr.
  assert (He : 0 <= EpicenterResult.error r).
  { rewrite Hr. simpl. apply Rsum_nonneg. intros s _. apply residual_nonneg. }
  assert (Hc : EpicenterResult.confidence r
               = 1 / (1 + EpicenterResult.error r / n)).
  { rewrite Hr. reflexivity. }
  split; [| split; [exact Hc | split]].
  - destruct (minTimeOf_is_minimum stations Hne) as [Hin Hmin].
    exists (minTimeOf stations). repeat split; auto.
    rewrite Hr. simpl. unfold residual, stationPoint.
    replace 6.0 with 6 by lra. reflexivity.
  - rewrite Hc. apply confidence_bounds; assumption.
  - intros stations' Hlen' r' Hlt.
    assert (Hr' : r' = simpleTriangulation stations') by reflexivity.
    rewrite (simpleTriangulation_many stations' Hlen') in Hr'.
    assert (Hc' : EpicenterResult.confidence r'
                  = 1 / (1 + EpicenterResult.error r'
                             / INR (length stations'))).
    { rewrite Hr'. reflexivity. }
    rewrite Hc, Hc'. apply confidence_decreasing; [| exact Hlt].
    apply Rle_mult_inv_pos; assumption.
Qed.

(** ** The buckets of one partitioning step *)

Lemma partition_bucket (stations : list SeismicStation.t)
    (bounds : GeoBounds.t) (i : nat) (quad : Quadrant.t) :
  nth_error (partitionStations stations (quadrants bounds)) i = Some quad ->
  nth_error (quadrantBounds bounds) i = Some (Quadrant.bounds quad)
  /\ Quadrant.stations quad
     = filter (goesTo (quadrantBounds bounds) i) stations.
Proof.
  intros Hn.
  assert (Hlen : (i < length (quadrants bounds))%nat).
  { apply nth_error_lt in Hn.
    rewrite <- (length_map Quadrant.bounds), partitionStations_bounds,
      length_map in Hn. exact Hn. }
  destruct (nth_error (quadrants bounds) i) as [q0 |] eqn:Hq0.
  - destruct (partitionStations_nth stations _ i q0 Hq0) as [q' [H1 [H2 H3]]].
    rewrite H1 in Hn. injection Hn as <-.
    assert (Hempty : Quadrant.stations q0 = []).
    { apply nth_error_In in Hq0. simpl in Hq0.
      destruct Hq0 as [<- | [<- | [<- | [<- | []]]]]; reflexivity. }
    split.
    + unfold quadrantBounds. rewrite nth_error_map, Hq0. simpl. congruence.
    + rewrite H3, Hempty. reflexivity.
  - apply nth_error_None in Hq0. lia.
Qed.

Lemma goesTo_contains (regions : list GeoBounds.t) (i : nat)
    (s : SeismicStation.t) (b : GeoBounds.t) :
  goesTo regions i s = true -> nth_error regions i = Some b ->
  GeoBounds.contains b s = true.
Proof.
  unfold goesTo. intros Hg Hn.
  destruct (firstContaining regions s) as [j |] eqn:Hj; [| discriminate].
  apply Nat.eqb_eq in Hg. subst j.
  destruct (firstContaining_some _ _ _ Hj) as [b' [Hn' [Hc _]]]. congruence.
Qed.

(** Every bucket holds a sub-vector of the input, all of it inside the
    quadrant of the bucket, whose region is one of the four sub-regions. *)
Lemma bucket_properties (stations : list SeismicStation.t)
    (bounds : GeoBounds.t) (quad : Quadrant.t) :
  In quad (partitionStations stations (quadrants bounds)) ->
  In (Quadrant.bounds quad) (quadrantBounds bounds)
  /\ Forall (fun s => GeoBounds.contains (Quadrant.bounds quad) s = true)
            (Quadrant.stations quad)
  /\ (exists keep, Quadrant.stations quad = filter keep stations).
Proof.
  intros Hin. apply In_nth_error in Hin. destruct Hin as [i Hn].
  destruct (partition_bucket _ _ _ _ Hn) as [Hb Hs]. repeat split.
  - apply nth_error_In in Hb. exact Hb.
  - rewrite Hs. apply Forall_forall. intros s Hf.
    apply filter_In in Hf. destruct Hf as [_ Hg].
    apply (goesTo_contains _ _ _ _ Hg Hb).
  - eexists. exact Hs.
Qed.

Lemma stationCount_zero (quads : list Quadrant.t) :
  Forall (fun q => Quadrant.stations q = []) quads ->
  stationCount quads = 0%nat.
Proof.
  unfold stationCount. induction 1 as [| q rest Hq _ IH]; simpl; auto.
  rewrite Hq, IH. reflexivity.
Qed.

(** ** The loop over the quadrants *)

Section SolveQuadrants.
Variable recurse :
  list SeismicStation.t -> GeoBounds.t -> option EpicenterResult.t.

Lemma solve_fold_none (quads : list Quadrant.t) :
  fold_left (solve_step recurse) quads None = None.
Proof. induction quads; simpl; auto. Qed.

Lemma solve_fold_some (quads : list Quadrant.t)
    (acc results : list EpicenterResult.t) :
  fold_left (solve_step recurse) quads (Some acc) = Some results <->
  exists rs, results = acc ++ rs
             /\ Forall2 (solvedBy recurse) (filter hasStations quads) rs.
Proof.
  revert acc. induction quads as [| q rest IH]; intros acc; simpl.
  - split.
    + intros H. injection H as <-. exists []. rewrite app_nil_r.
      split; [reflexivity | constructor].
    + intros [rs [-> H]]. inversion H. rewrite app_nil_r. reflexivity.
  - unfold hasStations at 1, solvedBy.
    destruct (Quadrant.stations q) as [| s0 ss] eqn:Hq.
    + apply IH.
    + destruct (recurse (s0 :: ss) (Quadrant.bounds q)) as [r |] eqn:Hr.
      * rewrite IH. split.
        -- intros [rs [-> H]]. exists (r :: rs). rewrite <- app_assoc.
           split; [reflexivity |]. constructor; auto.
           unfold solvedBy. rewrite Hq. exact Hr.
        -- intros [rs [-> H]]. inversion H as [| q' r' qs' rs' Hs Hrest];
             subst. unfold solvedBy in Hs. rewrite Hq, Hr in Hs.
           injection Hs as <-. exists rs'. rewrite <- app_assoc.
           split; [reflexivity | exact Hrest].
      * rewrite solve_fold_none. split; [discriminate |].
        intros [rs [_ H]]. inversion H as [| q' r' qs' rs' Hs Hrest]; subst.
        unfold solvedBy in Hs. rewrite Hq, Hr in Hs. discriminate.
Qed.

(** [solveQuadrants] returns the results of the recursive calls on the
    quadrants that hold a station, in the order of the quadrants. *)
Lemma solveQuadrants_spec (quads : list Quadrant.t)
    (results : list EpicenterResult.t) :
  solveQuadrants recurse quads = Some results <->
  Forall2 (solvedBy recurse) (filter hasStations quads) results.
Proof.
  unfold solveQuadrants. rewrite solve_fold_some. simpl. split.
  - intros [rs [-> H]]. exact H.
  - intros H. exists results. auto.
Qed.
End SolveQuadrants.

(** ** The driver, one level at a time *)

Lemma locateEpicenter_small (fuel : nat) (stations : list SeismicStation.t)
    (bounds : GeoBounds.t) :
  (length stations <= BASE_CASE_SIZE)%nat ->
  locateEpicenter (S fuel) stations bounds
  = Some (simpleTriangulation stations).
Proof.
  intros Hlen. simpl.
  destruct (Nat.leb_spec (length stations) BASE_CASE_SIZE); [reflexivity | lia].
Qed.

Lemma locateEpicenter_large (fuel : nat) (stations : list SeismicStation.t)
    (bounds : GeoBounds.t) :
  (BASE_CASE_SIZE < length stations)%nat ->
  locateEpicenter (S fuel) stations bounds
  = match solveQuadrants (locateEpicenter fuel)
            (partitionStations stations (quadrants bounds)) with
    | Some results => Some (weightedCombination results)
    | None => None
    end.
Proof.
  intros Hlen. simpl.
  destruct (Nat.leb_spec (length stations) BASE_CASE_SIZE); [lia | reflexivity].
Qed.

(** More fuel does not change a result. *)
Lemma locateEpicenter_more_fuel (fuel : nat) :
  forall (stations : list SeismicStation.t) (bounds : GeoBounds.t)
         (r : EpicenterResult.t),
    locateEpicenter fuel stations bounds = Some r ->
    locateEpicenter (S fuel) stations bounds = Some r.
Proof.
  induction fuel as [| fuel IH]; intros stations bounds r Hrun;
    [discriminate |].
  destruct (Nat.leb_spec (length stations) BASE_CASE_SIZE) as [Hle | Hgt].
  - rewrite locateEpicenter_small in * by exact Hle. exact Hrun.
  - rewrite locateEpicenter_large in * by exact Hgt.
    destruct (solveQuadrants (locateEpicenter fuel) _) as [results |] eqn:Hs;
      [| discriminate].
    apply solveQuadrants_spec in Hs.
    assert (Hs' : solveQuadrants (locateEpicenter (S fuel))
                    (partitionStations stations (quadrants bounds))
                  = Some results).
    { apply solveQuadrants_spec. eapply Forall2_impl; [| exact Hs].
      intros q r0 Hq. apply IH. exact Hq. }
    rewrite Hs'. exact Hrun.
Qed.

(** ** The calls of the combiner *)

Lemma solve_fold_log_agrees
    (recurse : list SeismicStation.t -> GeoBounds.t
               -> option EpicenterResult.t)
    (recurseLog : list SeismicStation.t -> GeoBounds.t
                  -> option (EpicenterResult.t * CombineLog))
    (quads : list Quadrant.t) :
  (forall s b, recurse s b = option_map fst (recurseLog s b)) ->
  forall acc accLog,
    acc = option_map fst accLog ->
    fold_left (solve_step recurse) quads acc
    = option_map fst (fold_left (solve_step_log recurseLog) quads accLog).
Proof.
  intros Hrec. induction quads as [| q rest IH]; intros acc accLog Hacc; simpl.
  - exact Hacc.
  - apply IH. subst acc. destruct accLog as [[results log] |]; simpl; auto.
    destruct (Quadrant.stations q) as [| s0 ss]; simpl; auto.
    rewrite Hrec.
    destruct (recurseLog (s0 :: ss) (Quadrant.bounds q)) as [[r sub] |];
      reflexivity.
Qed.

(** The logging run computes the result of [locateEpicenter]. *)
Lemma locateEpicenterLog_result (fuel : nat)
    (stations : list SeismicStation.t) (bounds : GeoBounds.t) :
  locateEpicenter fuel stations bounds
  = option_map fst (locateEpicenterLog fuel stations bounds).
Proof.
  revert stations bounds. induction fuel as [| fuel IH]; intros; simpl.
  - reflexivity.
  - destruct (length stations <=? BASE_CASE_SIZE)%nat; [reflexivity |].
    unfold solveQuadrants, solveQuadrantsLog.
    rewrite (solve_fold_log_agrees (locateEpicenter fuel)
               (locateEpicenterLog fuel) _ IH (Some []) (Some ([], [])))
      by reflexivity.
    destruct (fold_left _ _ _) as [[results log] |]; reflexivity.
Qed.

Lemma solve_fold_log_some
    (recurseLog : list SeismicStation.t -> GeoBounds.t
                  -> option (EpicenterResult.t * CombineLog))
    (quads : list Quadrant.t) :
  forall acc log0 results log,
    fold_left (solve_step_log recurseLog) quads (Some (acc, log0))
    = Some (results, log) ->
    exists outs,
      Forall2 (fun q o => recurseLog (Quadrant.stations q) (Quadrant.bounds q)
                          = Some o)
              (filter hasStations quads) outs
      /\ results = acc ++ map fst outs
      /\ log = log0 ++ concat (map snd outs).
Proof.
  induction quads as [| q rest IH]; intros acc log0 results log H; simpl in *.
  - injection H as <- <-. exists []. simpl. rewrite !app_nil_r.
    repeat split. constructor.
  - unfold hasStations at 1.
    destruct (Quadrant.stations q) as [| s0 ss] eqn:Hq.
    + apply IH. exact H.
    + destruct (recurseLog (s0 :: ss) (Quadrant.bounds q)) as [[r sub] |]
        eqn:Hr.
      * destruct (IH _ _ _ _ H) as [outs [H1 [H2 H3]]].
        exists ((r, sub) :: outs). simpl. rewrite H2, H3, <- !app_assoc.
        repeat split. constructor; auto. rewrite Hq. exact Hr.
      * exfalso. clear IH. revert H.
        assert (Hnone : forall l,
                   fold_left (solve_step_log recurseLog) l None = None)
          by (induction l; simpl; auto).
        rewrite Hnone. discriminate.
Qed.

Lemma totalWeight_sum (results : list EpicenterResult.t) :
  totalWeight results = Rsum EpicenterResult.confidence results.
Proof. unfold totalWeight. rewrite combine_loop_sums. reflexivity. Qed.

Lemma positiveCall_intro (results : list EpicenterResult.t) :
  results <> [] ->
  Forall (fun e => 0 < EpicenterResult.confidence e) results ->
  positiveCall results.
Proof.
  intros Hne Hall. repeat split; auto.
  rewrite totalWeight_sum. apply Rsum_pos; auto.
  apply Forall_forall. exact Hall.
Qed.

Lemma simpleTriangulation_confidence_pos (stations : list SeismicStation.t) :
  stations <> [] ->
  0 < EpicenterResult.confidence (simpleTriangulation stations).
Proof.
  intros Hne. destruct stations as [| s0 [| s1 rest]]; [congruence | |].
  - simpl. lra.
  - rewrite simpleTriangulation_many by (simpl; lia).
    cbn [EpicenterResult.confidence].
    apply confidence_bounds.
    + apply Rsum_nonneg. intros s _. apply residual_nonneg.
    + apply INR_length_pos. congruence.
Qed.

Lemma weightedCombination_confidence_pos (results : list EpicenterResult.t) :
  positiveCall results ->
  0 < EpicenterResult.confidence (weightedCombination results).
Proof.
  intros [Hne [Hall Htotal]].
  destruct results as [| r1 [| r2 rest]]; [congruence | |].
  - inversion Hall; auto.
  - rewrite weightedCombination_many by (simpl; lia).
    cbn [EpicenterResult.confidence]. rewrite <- totalWeight_sum.
    apply Rdiv_lt_0_compat; [exact Htotal |].
    apply INR_length_pos. congruence.
Qed.

(** A non-empty vector of stations inside the region leaves at least one
    quadrant with a station. *)
Lemma partition_some_bucket (stations : list SeismicStation.t)
    (bounds : GeoBounds.t) :
  stations <> [] ->
  Forall (fun s => GeoBounds.contains bounds s = true) stations ->
  filter hasStations (partitionStations stations (quadrants bounds)) <> [].
Proof.
  intros Hne Hall Hnil.
  assert (Hcount : stationCount (partitionStations stations (quadrants bounds))
                   = length stations).
  { rewrite partitionStations_count; [reflexivity |].
    rewrite Forall_forall in *. intros s Hs Hnone.
    apply firstContaining_none in Hnone.
    change (map Quadrant.bounds (quadrants bounds))
      with (quadrantBounds bounds) in Hnone.
    rewrite contains_quadrant_cases in Hnone; [discriminate | auto]. }
  rewrite stationCount_zero in Hcount.
  - destruct stations; [congruence | discriminate].
  - apply Forall_forall. intros q Hq.
    destruct (Quadrant.stations q) as [| s0 ss] eqn:Hs; [reflexivity |].
    assert (Hin : In q (filter hasStations
                          (partitionStations stations (quadrants bounds)))).
    { apply filter_In. split; auto. unfold hasStations. rewrite Hs.
      reflexivity. }
    rewrite Hnil in Hin. contradiction.
Qed.

Lemma Forall2_Forall_r {A B : Type} (P : A -> B -> Prop) (Q : B -> Prop)
    (l : list A) (l' : list B) :
  Forall2 P l l' ->
  (forall a b, In a l -> P a b -> Q b) ->
  Forall Q l'.
Proof.
  induction 1 as [| a b l l' Hab _ IH]; intros H; constructor.
  - apply (H a b); simpl; auto.
  - apply IH. intros a' b' Hin. apply H. simpl; auto.
Qed.

Lemma hasStations_nonempty (q : Quadrant.t) :
  hasStations q = true -> Quadrant.stations q <> [].
Proof. unfold hasStations. destruct (Quadrant.stations q); congruence. Qed.

Lemma locateEpicenterLog_positive (fuel : nat) :
  forall (stations : list SeismicStation.t) (bounds : GeoBounds.t)
         (r : EpicenterResult.t) (log : CombineLog),
    stations <> [] ->
    Forall (fun s => GeoBounds.contains bounds s = true) stations ->
    locateEpicenterLog fuel stations bounds = Some (r, log) ->
    0 < EpicenterResult.confidence r /\ Forall positiveCall log.
Proof.
  induction fuel as [| fuel IH]; intros stations bounds r log Hne Hall Hrun;
    simpl in Hrun; [discriminate |].
  destruct (length stations <=? BASE_CASE_SIZE)%nat.
  - injection Hrun as <- <-. split; [| constructor].
    apply simpleTriangulation_confidence_pos. exact Hne.
  - destruct (solveQuadrantsLog _ _) as [[results sublog] |] eqn:Hsolve;
      [| discriminate].
    injection Hrun as <- <-.
    unfold solveQuadrantsLog in Hsolve.
    apply solve_fold_log_some in Hsolve.
    destruct Hsolve as [outs [Hrec [Hres Hlog]]]. simpl in Hres, Hlog.
    subst results sublog.
    pose proof (partition_some_bucket stations bounds Hne Hall) as Hbucket.
    assert (Houts : Forall (fun o => 0 < EpicenterResult.confidence (fst o)
                                     /\ Forall positiveCall (snd o)) outs).
    { apply (Forall2_Forall_r _ _ _ _ Hrec). intros q [r sub] Hq Hsub.
      apply filter_In in Hq. destruct Hq as [Hin Hhas].
      destruct (bucket_properties _ _ _ Hin) as [_ [Hwithin _]].
      apply (IH (Quadrant.stations q) (Quadrant.bounds q)); auto.
      apply hasStations_nonempty. exact Hhas. }
    assert (Hcall : positiveCall (map fst outs)).
    { apply positiveCall_intro.
      - intros Hnil. apply Hbucket. apply Forall2_length in Hrec.
        rewrite <- (length_map fst), Hnil in Hrec.
        destruct (filter hasStations _); [reflexivity | discriminate].
      - apply Forall_map. eapply Forall_impl; [| exact Houts].
        intros o [Ho _]. exact Ho. }
    split.
    + apply weightedCombination_confidence_pos. exact Hcall.
    + apply Forall_app. split.
      * clear - Houts. induction Houts as [| o outs' [_ Ho] _ IHo]; simpl.
        -- constructor.
        -- apply Forall_app. split; assumption.
      * constructor; [exact Hcall | constructor].
Qed.

(** ** A run on nine stations *)

Lemma grid_partition :
  partitionStations gridStations (quadrants gridRegion) = gridQuadrants.
Proof.
  unfold partitionStations, gridStations, quadrants, gridRegion, Quadrant.new.
  repeat (progress
            (cbn [fold_left assignStation Quadrant.bounds Quadrant.stations
                  Quadrant.estimate Quadrant.confidence Quadrant.push_back
                  app];
             decide_contains)).
  reflexivity.
Qed.

(** The run on the grid takes the recursive path, solves each of the four
    quadrants in its base case and combines the four results. *)
Lemma grid_run :
  locateEpicenter 2 gridStations gridRegion
  = Some (weightedCombination gridResults).
Proof.
  rewrite locateEpicenter_large by (unfold BASE_CASE_SIZE; simpl; lia).
  rewrite grid_partition.
  assert (Hsolve : solveQuadrants (locateEpicenter 1) gridQuadrants
                   = Some gridResults).
  { apply solveQuadrants_spec. unfold gridQuadrants, gridResults. simpl.
    repeat constructor. }
  rewrite Hsolve. reflexivity.
Qed.

Lemma grid_run_log :
  locateEpicenterLog 2 gridStations gridRegion
  = Some (weightedCombination gridResults, [gridResults]).
Proof.
  change (locateEpicenterLog 2 gridStations gridRegion)
    with (match solveQuadrantsLog (locateEpicenterLog 1)
                  (partitionStations gridStations (quadrants gridRegion)) with
          | Some (results, log) =>
              Some (weightedCombination results, log ++ [results])
          | None => None
          end).
  rewrite grid_partition. reflexivity.
Qed.

Lemma grid_in_region :
  Forall (fun s => GeoBounds.contains gridRegion s = true) gridStations.
Proof.
  unfold gridStations, gridRegion.
  repeat constructor; apply contains_spec; simpl; lra.
Qed.

(** ** The recursion *)

Lemma samePlace_spec (s t : SeismicStation.t) :
  samePlace s t = true <->
  latitude s = latitude t /\ longitude s = longitude t.
Proof.
  unfold samePlace.
  destruct (Req_dec_T (latitude s) (latitude t));
    destruct (Req_dec_T (longitude s) (longitude t));
    split; intros H; auto; try discriminate; destruct H; contradiction.
Qed.

Lemma samePlace_contains (s t : SeismicStation.t) (b : GeoBounds.t) :
  samePlace s t = true -> GeoBounds.contains b t = GeoBounds.contains b s.
Proof.
  intros H. apply samePlace_spec in H. destruct H as [Hlat Hlon].
  unfold GeoBounds.contains. rewrite Hlat, Hlon. reflexivity.
Qed.

Lemma samePlace_goesTo (s t : SeismicStation.t) (regions : list GeoBounds.t)
    (i : nat) :
  samePlace s t = true -> goesTo regions i t = goesTo regions i s.
Proof.
  intros H. unfold goesTo.
  assert (E : firstContaining regions t = firstContaining regions s).
  { induction regions as [| b rest IH]; simpl; auto.
    rewrite (samePlace_contains s t b H), IH. reflexivity. }
  rewrite E. reflexivity.
Qed.

Lemma crowd_of_bucket (s : SeismicStation.t) (regions : list GeoBounds.t)
    (i : nat) (stations : list SeismicStation.t) :
  goesTo regions i s = true ->
  crowd s (filter (goesTo regions i) stations) = crowd s stations.
Proof.
  intros Hs. unfold crowd. induction stations as [| t rest IH]; simpl; auto.
  destruct (samePlace s t) eqn:Hst.
  - rewrite (samePlace_goesTo s t regions i Hst), Hs. simpl.
    rewrite Hst, IH. reflexivity.
  - destruct (goesTo regions i t); simpl; [rewrite Hst |]; exact IH.
Qed.

Lemma filter_length_le {A : Type} (f : A -> bool) (l : list A) :
  (length (filter f l) <= length l)%nat.
Proof.
  induction l as [| a rest IH]; simpl; auto.
  destruct (f a); simpl; lia.
Qed.

Lemma Forall2_In_l {A B : Type} (P : A -> B -> Prop) (l : list A)
    (l' : list B) (a : A) :
  Forall2 P l l' -> In a l -> exists b, In b l' /\ P a b.
Proof.
  induction 1 as [| a0 b0 l l' Hab _ IH]; simpl; intros Hin.
  - contradiction.
  - destruct Hin as [-> | Hin].
    + exists b0. auto.
    + destruct (IH Hin) as [b [Hb Hp]]. exists b. auto.
Qed.

Lemma Forall2_exists_r {A B : Type} (P : A -> B -> Prop) (l : list A) :
  (forall a, In a l -> exists b, P a b) -> exists l', Forall2 P l l'.
Proof.
  induction l as [| a rest IH]; intros H.
  - exists []. constructor.
  - destruct (H a (or_introl eq_refl)) as [b Hb].
    destruct IH as [l' Hl']; [intros a' Ha'; apply H; right; exact Ha' |].
    exists (b :: l'). constructor; assumption.
Qed.

(** The quadrant that receives the stations standing where [s] stands. *)
Lemma bucket_of_station (stations : list SeismicStation.t)
    (bounds : GeoBounds.t) (s : SeismicStation.t) :
  GeoBounds.contains bounds s = true ->
  exists quad,
    In quad (partitionStations stations (quadrants bounds))
    /\ GeoBounds.contains (Quadrant.bounds quad) s = true
    /\ crowd s (Quadrant.stations quad) = crowd s stations.
Proof.
  intros Hc.
  destruct (firstContaining (quadrantBounds bounds) s) as [i |] eqn:Hi.
  - destruct (firstContaining_some _ _ _ Hi) as [b [Hn [Hb _]]].
    assert (Hlen : (i < length (partitionStations stations
                                  (quadrants bounds)))%nat).
    { apply nth_error_lt in Hn. unfold quadrantBounds in Hn.
      rewrite <- partitionStations_bounds with (stations := stations),
        length_map in Hn. exact Hn. }
    destruct (nth_error (partitionStations stations (quadrants bounds)) i)
      as [quad |] eqn:Hq; [| apply nth_error_None in Hq; lia].
    destruct (partition_bucket _ _ _ _ Hq) as [Hqb Hqs].
    exists quad. split; [eapply nth_error_In; exact Hq | split].
    + congruence.
    + rewrite Hqs. apply crowd_of_bucket. unfold goesTo. rewrite Hi.
      apply Nat.eqb_refl.
  - apply firstContaining_none in Hi.
    rewrite contains_quadrant_cases in Hi; [discriminate | exact Hc].
Qed.

(** More than eight stations at one place inside the region are never
    separated: the recursion does not return, whatever the fuel. *)
Lemma crowd_diverges (fuel : nat) :
  forall (stations : list SeismicStation.t) (bounds : GeoBounds.t)
         (s : SeismicStation.t),
    GeoBounds.contains bounds s = true ->
    (BASE_CASE_SIZE < length (crowd s stations))%nat ->
    locateEpicenter fuel stations bounds = None.
Proof.
  induction fuel as [| fuel IH]; intros stations bounds s Hc Hcrowd;
    [reflexivity |].
  pose proof (filter_length_le (samePlace s) stations) as Hle.
  fold (crowd s stations) in Hle.
  rewrite locateEpicenter_large by lia.
  destruct (bucket_of_station stations bounds s Hc) as [quad [Hin [Hqc Hqs]]].
  destruct (solveQuadrants _ _) as [results |] eqn:Hsolve; [| reflexivity].
  exfalso. apply solveQuadrants_spec in Hsolve.
  assert (Hhas : hasStations quad = true).
  { unfold hasStations. destruct (Quadrant.stations quad); [| reflexivity].
    rewrite <- Hqs in Hcrowd. simpl in Hcrowd. lia. }
  destruct (Forall2_In_l _ _ _ quad Hsolve) as [r [_ Hr]].
  { apply filter_In. auto. }
  unfold solvedBy in Hr.
  rewrite (IH (Quadrant.stations quad) (Quadrant.bounds quad) s) in Hr;
    [discriminate | exact Hqc | rewrite Hqs; exact Hcrowd].
Qed.

Lemma assignStation_count_le (s : SeismicStation.t) (quads : list Quadrant.t) :
  (stationCount (assignStation s quads) <= stationCount quads + 1)%nat.
Proof.
  rewrite assignStation_count.
  destruct (firstContaining (map Quadrant.bounds quads) s); lia.
Qed.

(** The buckets never hold more stations than the loop was given. *)
Lemma partitionStations_count_le (stations : list SeismicStation.t)
    (quads : list Quadrant.t) :
  (stationCount (partitionStations stations quads)
   <= stationCount quads + length stations)%nat.
Proof.
  unfold partitionStations. revert quads.
  induction stations as [| s rest IH]; intros quads; simpl.
  - lia.
  - specialize (IH (assignStation s quads)).
    pose proof (assignStation_count_le s quads). lia.
Qed.

Lemma quadrants_empty (bounds : GeoBounds.t) :
  stationCount (quadrants bounds) = 0%nat.
Proof. reflexivity. Qed.

(** A call on more than eight stations returns exactly when the recursive
    call on every bucket that holds a station returns. *)
Lemma locateEpicenter_returns_step (fuel : nat)
    (stations : list SeismicStation.t) (bounds : GeoBounds.t) :
  (BASE_CASE_SIZE < length stations)%nat ->
  (exists r, locateEpicenter (S fuel) stations bounds = Some r)
  <-> Forall (fun quad =>
                Quadrant.stations quad = []
                \/ exists r, locateEpicenter fuel (Quadrant.stations quad)
                               (Quadrant.bounds quad) = Some r)
             (partitionStations stations (quadrants bounds)).
Proof.
  intros Hlen. rewrite locateEpicenter_large by exact Hlen. split.
  - intros [r Hr].
    destruct (solveQuadrants (locateEpicenter fuel) _) as [results |] eqn:Hs;
      [| discriminate].
    apply solveQuadrants_spec in Hs. apply Forall_forall. intros quad Hq.
    destruct (Quadrant.stations quad) as [| s0 ss] eqn:Hst;
      [left; reflexivity |].
    right. destruct (Forall2_In_l _ _ _ quad Hs) as [r0 [_ Hr0]].
    + apply filter_In. split; [exact Hq |]. unfold hasStations.
      rewrite Hst. reflexivity.
    + exists r0. unfold solvedBy in Hr0. rewrite Hst in Hr0. exact Hr0.
  - intros Hall. rewrite Forall_forall in Hall.
    destruct (Forall2_exists_r (solvedBy (locateEpicenter fuel))
                (filter hasStations
                   (partitionStations stations (quadrants bounds))))
      as [results Hres].
    + intros quad Hq. apply filter_In in Hq. destruct Hq as [Hq Hhas].
      destruct (Hall quad Hq) as [Hnil | Hret]; [| exact Hret].
      unfold hasStations in Hhas. rewrite Hnil in Hhas. discriminate.
    + apply solveQuadrants_spec in Hres. rewrite Hres. eexists. reflexivity.
Qed.

(** The call stack that a run needs is its number of levels of subdivision,
    plus one. *)
Lemma locateEpicenter_returns_within (d : nat) :
  forall (stations : list SeismicStation.t) (bounds : GeoBounds.t),
    (exists r, locateEpicenter (S d) stations bounds = Some r)
    <-> splitsWithin d stations bounds.
Proof.
  induction d as [| d IH]; intros stations bounds.
  - destruct (Nat.leb_spec (length stations) BASE_CASE_SIZE) as [Hle | Hgt].
    + split; intros _; [left; exact Hle |].
      eexists. apply locateEpicenter_small. exact Hle.
    + rewrite locateEpicenter_returns_step by exact Hgt. split.
      * intros Hall. right. eapply Forall_impl; [| exact Hall].
        intros quad [Hnil | [r Hr]]; [left; exact Hnil | discriminate].
      * intros [Hle | Hall]; [lia |]. eapply Forall_impl; [| exact Hall].
        intros quad [Hnil | []]. left. exact Hnil.
  - destruct (Nat.leb_spec (length stations) BASE_CASE_SIZE) as [Hle | Hgt].
    + split; intros _; [left; exact Hle |].
      eexists. apply locateEpicenter_small. exact Hle.
    + rewrite locateEpicenter_returns_step by exact Hgt. split.
      * intros Hall. right. eapply Forall_impl; [| exact Hall].
        intros quad [Hnil | Hret]; [left; exact Hnil |].
        right. apply IH. exact Hret.
      * intros [Hle | Hall]; [lia |]. eapply Forall_impl; [| exact Hall].
        intros quad [Hnil | Hsplit]; [left; exact Hnil |].
        right. apply IH. exact Hsplit.
Qed.

(** C1, as the code has it: no depth bound guards [locateEpicenter].  A call
    on at most eight stations returns the base-case estimate at once.  A
    call on more stations hands them to the four midpoint boxes of its
    region: no station is duplicated (the buckets together hold at most the
    stations of the call), and every bucket is a sub-vector of the stations
    of the call, all of them inside the box of the bucket; but a bucket may
    hold all the stations of the call, and the stations that stand at one
    place of the region always share their bucket, so the station count
    need not decrease.  Such a call returns exactly when the recursive call
    on every bucket that is not empty returns; hence a run returns within
    [d + 1] nested calls exactly when its subdivision reaches base cases
    within [d] levels, and within two nested calls when no bucket of the
    first level holds more than eight stations. *)
Theorem locateEpicenter_recursion :
  forall (stations : list SeismicStation.t) (bounds : GeoBounds.t),
    ((length stations <= 8)%nat ->
     forall fuel : nat,
       locateEpicenter (S fuel) stations bounds
       = Some (simpleTriangulation stations))
    /\ map Quadrant.bounds (partitionStations stations (quadrants bounds))
       = midpointBoxes bounds
    /\ (stationCount (partitionStations stations (quadrants bounds))
        <= length stations)%nat
    /\ (forall quad,
          In quad (partitionStations stations (quadrants bounds)) ->
          (exists keep, Quadrant.stations quad = filter keep stations)
          /\ (length (Quadrant.stations quad) <= length stations)%nat
          /\ Forall (fun s =>
                       GeoBounds.contains (Quadrant.bounds quad) s = true)
                    (Quadrant.stations quad))
    /\ (forall s,
          GeoBounds.contains bounds s = true ->
          exists quad,
            In quad (partitionStations stations (quadrants bounds))
            /\ GeoBounds.contains (Quadrant.bounds quad) s = true
            /\ filter (samePlace s) (Quadrant.stations quad)
               = filter (samePlace s) stations)
    /\ ((8 < length stations)%nat ->
        forall fuel : nat,
          (exists r, locateEpicenter (S fuel) stations bounds = Some r)
          <-> Forall (fun quad =>
                        Quadrant.stations quad = []
                        \/ exists r,
                             locateEpicenter fuel (Quadrant.stations quad)
                               (Quadrant.bounds quad) = Some r)
                     (partitionStations stations (quadrants bounds)))
    /\ (forall d : nat,
          (exists r, locateEpicenter (S d) stations bounds = Some r)
          <-> splitsWithin d stations bounds)
    /\ (Forall (fun quad => (length (Quadrant.stations quad) <= 8)%nat)
               (partitionStations stations (quadrants bounds)) ->
        exists r, locateEpicenter 2 stations bounds = Some r).
Proof.
  intros stations bounds.
  split; [| split; [| split; [| split; [| split; [| split; [| split]]]]]].
  - intros Hlen fuel. apply locateEpicenter_small. exact Hlen.
  - rewrite partitionStations_bounds. reflexivity.
  - pose proof (partitionStations_count_le stations (quadrants bounds)) as H.
    rewrite quadrants_empty in H. exact H.
  - intros quad Hq.
    destruct (bucket_properties _ _ _ Hq) as [_ [Hin [keep Hkeep]]].
    split; [exists keep; exact Hkeep | split; [| exact Hin]].
    rewrite Hkeep. apply filter_length_le.
  - intros s Hs. exact (bucket_of_station stations bounds s Hs).
  - intros Hlen fuel. apply locateEpicenter_returns_step. exact Hlen.
  - intros d. apply locateEpicenter_returns_within.
  - intros Hall. apply locateEpicenter_returns_within. right.
    eapply Forall_impl; [| exact Hall].
    intros quad Hlen. right. left. exact Hlen.
Qed.

(** ** Positive confidence *)

(** C10, in exact arithmetic: when the station vector is not empty and
    every station lies in the region, every estimate returned by
    [locateEpicenter] has confidence strictly above 0, and every call of
    [weightedCombination] made during the run received a non-empty vector
    of estimates of positive confidence, so that its [total_weight], by
    which it divides, was strictly positive. *)
Theorem confidence_positive_in_region :
  forall (fuel : nat) (stations : list SeismicStation.t)
         (bounds : GeoBounds.t) (r : EpicenterResult.t),
    stations <> [] ->
    Forall (fun s => GeoBounds.contains bounds s = true) stations ->
    locateEpicenter fuel stations bounds = Some r ->
    0 < EpicenterResult.confidence r
    /\ exists log : CombineLog,
         locateEpicenterLog fuel stations bounds = Some (r, log)
         /\ Forall (fun results =>
                      results <> []
                      /\ Forall (fun e => 0 < EpicenterResult.confidence e)
                                results
                      /\ 0 < totalWeight results) log.
Proof.
  intros fuel stations bounds r Hne Hall Hrun.
  rewrite locateEpicenterLog_result in Hrun.
  destruct (locateEpicenterLog fuel stations bounds) as [[r' log] |] eqn:Hlog;
    simpl in Hrun; [| discriminate].
  injection Hrun as ->.
  destruct (locateEpicenterLog_positive fuel stations bounds r log Hne Hall
              Hlog) as [Hpos Hcalls].
  split; [exact Hpos |]. exists log. split; [reflexivity | exact Hcalls].
Qed.

(** ** Nine stations at one place *)

Lemma crowded_all_same :
  crowd (SeismicStation.mk 1 1 0 0) crowdedStations = crowdedStations.
Proof.
  unfold crowd. apply forallb_filter_id. apply forallb_forall.
  intros t Ht. apply samePlace_spec. unfold crowdedStations in Ht.
  apply in_map_iff in Ht. destruct Ht as [n [<- _]]. auto.
Qed.

(** Against C1 as stated: nine stations at (1,1) in the region
    [0,10] x [0,10] are all inside the region; the partition step hands all
    nine to one quadrant, so the station count does not decrease; and
    [locateEpicenter] never returns on them. *)
Lemma nine_colocated_never_return :
  Forall (fun s => GeoBounds.contains crowdedRegion s = true) crowdedStations
  /\ (exists quad,
        In quad (partitionStations crowdedStations (quadrants crowdedRegion))
        /\ Quadrant.stations quad = crowdedStations)
  /\ ~ (exists fuel r,
          locateEpicenter fuel crowdedStations crowdedRegion = Some r).
Proof.
  assert (Hin : Forall (fun s => GeoBounds.contains crowdedRegion s = true)
                       crowdedStations).
  { unfold crowdedStations, crowdedRegion.
    repeat constructor; apply contains_spec; simpl; lra. }
  split; [exact Hin | split].
  - exists (Quadrant.mk (GeoBounds.mk 0 ((0 + 10) / 2) 0 ((0 + 10) / 2))
                        crowdedStations (Point.mk 0 0) 0).
    split; [| reflexivity].
    unfold partitionStations, crowdedStations, quadrants, crowdedRegion,
      Quadrant.new.
    cbn [map].
    repeat (progress
              (cbn [fold_left assignStation Quadrant.bounds Quadrant.stations
                    Quadrant.estimate Quadrant.confidence Quadrant.push_back
                    app];
               decide_contains)).
    left. reflexivity.
  - intros [fuel [r Hrun]].
    rewrite (crowd_diverges fuel crowdedStations crowdedRegion
               (SeismicStation.mk 1 1 0 0)) in Hrun.
    + discriminate.
    + apply contains_spec. simpl. lra.
    + rewrite crowded_all_same. unfold BASE_CASE_SIZE. simpl. lia.
Qed.

(** ** The statements at concrete inputs *)

Lemma recursion_witness :
  locateEpicenter 2 gridStations gridRegion
  = Some (weightedCombination gridResults)
  /\ splitsWithin 1 gridStations gridRegion
  /\ (stationCount (partitionStations gridStations (quadrants gridRegion))
      <= 9)%nat
  /\ map Quadrant.bounds (partitionStations gridStations
                            (quadrants gridRegion))
     = midpointBoxes gridRegion.
Proof.
  destruct (locateEpicenter_recursion gridStations gridRegion)
    as [_ [Hboxes [Hcount [_ [_ [_ [Hwithin _]]]]]]].
  split; [exact grid_run | split; [| split; [exact Hcount | exact Hboxes]]].
  apply Hwithin. eexists. exact grid_run.
Defined.

Lemma partition_witness :
  Forall (fun s => GeoBounds.contains gridRegion s = true) gridStations
  /\ stationCount (partitionStations gridStations (quadrants gridRegion))
     = 9%nat.
Proof.
  split; [exact grid_in_region |].
  exact (proj1 (partition_conserves_stations gridStations gridRegion
                  grid_in_region)).
Defined.

Lemma location_witness :
  (2 <= length gridSE)%nat
  /\ exists minTime : R,
       In minTime (map detection_time gridSE)
       /\ (forall s, In s gridSE -> 0 <= detection_time s - minTime)
       /\ let w := fun s => 1 / (1 + (detection_time s - minTime) ^ 2) in
          0 < Rsum w gridSE
          /\ EpicenterResult.location (simpleTriangulation gridSE)
             = Point.mk
                 (Rsum (fun s => latitude s * w s) gridSE / Rsum w gridSE)
                 (Rsum (fun s => longitude s * w s) gridSE / Rsum w gridSE).
Proof.
  assert (Hlen : (2 <= length gridSE)%nat) by (simpl; lia).
  split; [exact Hlen |].
  exact (proj1 simpleTriangulation_location gridSE Hlen).
Defined.

Lemma error_confidence_witness :
  (2 <= length gridSE)%nat
  /\ 0 < EpicenterResult.confidence (simpleTriangulation gridSE) <= 1.
Proof.
  assert (Hlen : (2 <= length gridSE)%nat) by (simpl; lia).
  split; [exact Hlen |].
  exact (proj1 (proj2 (proj2 (simpleTriangulation_error_confidence
                                gridSE Hlen)))).
Defined.

Lemma combination_witness :
  (2 <= length gridResults)%nat
  /\ EpicenterResult.confidence (weightedCombination gridResults)
     = Rsum EpicenterResult.confidence gridResults / INR 4.
Proof.
  assert (Hlen : (2 <= length gridResults)%nat) by (simpl; lia).
  split; [exact Hlen |].
  exact (proj1 (proj2 (proj2 (proj2 weightedCombination_formula
                                gridResults Hlen)))).
Defined.

Lemma quadrants_witness :
  let s := gridStation 1 2 1 in
  GeoBounds.contains (GeoBounds.mk 0 2 0 2) s = true
  /\ GeoBounds.contains (GeoBounds.mk 0 2 2 4) s = true
  /\ (latitude s = 2 \/ longitude s = 2).
Proof.
  intros s.
  assert (Hsw : GeoBounds.contains (GeoBounds.mk 0 2 0 2) s = true)
    by (apply contains_spec; simpl; lra).
  assert (Hse : GeoBounds.contains (GeoBounds.mk 0 2 2 4) s = true)
    by (apply contains_spec; simpl; lra).
  split; [exact Hsw | split; [exact Hse |]].
  destruct (proj1 (proj2 (proj2 (quadrants_cover_parent gridRegion)))
              0%nat 1%nat
              (Quadrant.new (GeoBounds.mk 0 ((0 + 4) / 2) 0 ((0 + 4) / 2)))
              (Quadrant.new (GeoBounds.mk 0 ((0 + 4) / 2) ((0 + 4) / 2) 4))
              s) as [H | H].
  - discriminate.
  - reflexivity.
  - reflexivity.
  - apply contains_spec; simpl; lra.
  - apply contains_spec; simpl; lra.
  - left. rewrite H. simpl. lra.
  - right. rewrite H. simpl. lra.
Defined.

Lemma base_case_witness :
  (length (firstn 8 gridStations) <= 8)%nat
  /\ locateEpicenter 1 (firstn 8 gridStations) gridRegion
     = Some (simpleTriangulation (firstn 8 gridStations)).
Proof.
  assert (Hlen : (length (firstn 8 gridStations) <= 8)%nat) by (simpl; lia).
  split; [exact Hlen |].
  exact (locateEpicenter_base_case (firstn 8 gridStations) gridRegion 0 Hlen).
Defined.

Lemma confidence_witness :
  locateEpicenter 2 gridStations gridRegion
  = Some (weightedCombination gridResults)
  /\ locateEpicenterLog 2 gridStations gridRegion
     = Some (weightedCombination gridResults, [gridResults])
  /\ 0 < EpicenterResult.confidence (weightedCombination gridResults)
  /\ 0 < totalWeight gridResults.
Proof.
  split; [exact grid_run | split; [exact grid_run_log |]].
  destruct (confidence_positive_in_region 2 gridStations gridRegion
              (weightedCombination gridResults)) as [Hpos [log [Hlog Hcalls]]].
  - discriminate.
  - exact grid_in_region.
  - exact grid_run.
  - split; [exact Hpos |].
    rewrite grid_run_log in Hlog. injection Hlog as <-.
    inversion Hcalls as [| results rest [_ [_ Htotal]] _]. exact Htotal.
Defined.

(** * Further properties of the code *)

(** ** [Point::distance] *)

Lemma sum_squares_nonneg (a b : R) : 0 <= a * a + b * b.
Proof. nra. Qed.

Lemma sum_squares_zero (a b : R) : a * a + b * b = 0 -> a = 0 /\ b = 0.
Proof. intros H. split; nra. Qed.

(** X1: in exact arithmetic the distance of two points is not negative,
    does not depend on their order, and is 0 exactly when the points have
    the same coordinates. *)
Theorem distance_separates_points :
  forall p q : Point.t,
    0 <= Point.distance p q
    /\ Point.distance p q = Point.distance q p
    /\ (Point.distance p q = 0
        <-> Point.x p = Point.x q /\ Point.y p = Point.y q).
Proof.
  intros p q. unfold Point.distance. split; [apply sqrt_pos | split].
  - f_equal. ring.
  - split.
    + intros H.
      assert (Hsum : (Point.x p - Point.x q) * (Point.x p - Point.x q)
                     + (Point.y p - Point.y q) * (Point.y p - Point.y q) = 0)
        by (apply sqrt_eq_0; [apply sum_squares_nonneg | exact H]).
      apply sum_squares_zero in Hsum. lra.
    + intros [-> ->].
      replace ((Point.x q - Point.x q) * (Point.x q - Point.x q)
               + (Point.y q - Point.y q) * (Point.y q - Point.y q))
        with 0 by ring.
      apply sqrt_0.
Qed.

Lemma sqrt_sum_triangle (a b c d : R) :
  sqrt ((a + c) * (a + c) + (b + d) * (b + d))
  <= sqrt (a * a + b * b) + sqrt (c * c + d * d).
Proof.
  set (A := sqrt (a * a + b * b)). set (C := sqrt (c * c + d * d)).
  assert (HA : 0 <= A) by apply sqrt_pos.
  assert (HC : 0 <= C) by apply sqrt_pos.
  assert (HA2 : A * A = a * a + b * b)
    by (apply sqrt_sqrt; apply sum_squares_nonneg).
  assert (HC2 : C * C = c * c + d * d)
    by (apply sqrt_sqrt; apply sum_squares_nonneg).
  assert (Hcs : a * c + b * d <= A * C).
  { destruct (Rle_dec (a * c + b * d) 0) as [Hneg | Hpos].
    - assert (0 <= A * C) by (apply Rmult_le_pos; assumption). lra.
    - apply Rnot_le_lt in Hpos.
      assert (Hsq : (a * c + b * d) * (a * c + b * d) <= (A * C) * (A * C)).
      { replace ((A * C) * (A * C)) with ((A * A) * (C * C)) by ring.
        rewrite HA2, HC2.
        pose proof (Rle_0_sqr (a * d - b * c)) as Hdet. unfold Rsqr in Hdet.
        nra. }
      apply Rsqr_incr_0_var; [exact Hsq |].
      apply Rmult_le_pos; assumption. }
  rewrite <- (sqrt_square (A + C)) by lra.
  apply sqrt_le_1_alt. nra.
Qed.

(** X2: in exact arithmetic going from [p] to [r] directly is never
    longer than going through a third point [q]. *)
Theorem distance_triangle :
  forall p q r : Point.t,
    Point.distance p r <= Point.distance p q + Point.distance q r.
Proof.
  intros p q r. unfold Point.distance.
  replace (Point.x p - Point.x r)
    with ((Point.x p - Point.x q) + (Point.x q - Point.x r)) by ring.
  replace (Point.y p - Point.y r)
    with ((Point.y p - Point.y q) + (Point.y q - Point.y r)) by ring.
  apply sqrt_sum_triangle.
Qed.

(** ** The quadrant of a station *)

Lemma double_le_false (a b : R) : double_le a b = false <-> b < a.
Proof.
  unfold double_le. destruct (Rle_dec a b); split; intros H;
    try discriminate; auto; lra.
Qed.

Lemma firstContaining_quadrants (bounds : GeoBounds.t)
    (s : SeismicStation.t) :
  firstContaining (quadrantBounds bounds) s
  = if GeoBounds.contains bounds s
    then Some (quadrantIndex bounds s)
    else None.
Proof.
  destruct (GeoBounds.contains bounds s) eqn:Hc.
  - apply contains_spec in Hc. unfold quadrantIndex. simpl.
    destruct (double_le (latitude s) _) eqn:Hlat;
      destruct (double_le (longitude s) _) eqn:Hlon;
      first [apply double_le_true in Hlat | apply double_le_false in Hlat];
      first [apply double_le_true in Hlon | apply double_le_false in Hlon];
      decide_contains; reflexivity.
  - apply firstContaining_none.
    apply not_true_is_false. intros Hex.
    apply existsb_exists in Hex. destruct Hex as [q [Hin Hq]].
    rewrite (quadrant_inside_parent bounds q s Hin Hq) in Hc. discriminate.
Qed.




(** ** Stations outside the region *)





(** ** The size of a combiner call *)

Lemma partition_length (stations : list SeismicStation.t)
    (bounds : GeoBounds.t) :
  length (partitionStations stations (quadrants bounds)) = 4%nat.
Proof.
  rewrite <- (length_map Quadrant.bounds), partitionStations_bounds.
  reflexivity.
Qed.

(** X6: a call of [weightedCombination] made by [locateEpicenter] never
    receives more than four estimates, one for each quadrant that holds a
    station; and a run that recursed made at least one such call, the last
    of which produced the returned estimate. *)
Theorem combiner_calls_at_most_four :
  forall (fuel : nat) (stations : list SeismicStation.t)
         (bounds : GeoBounds.t) (r : EpicenterResult.t) (log : CombineLog),
    locateEpicenterLog fuel stations bounds = Some (r, log) ->
    Forall (fun results => (length results <= 4)%nat) log
    /\ ((length stations <= 8)%nat -> log = [])
    /\ ((8 < length stations)%nat ->
        exists earlier results,
          log = earlier ++ [results]
          /\ r = weightedCombination results
          /\ length results
             = length (filter hasStations
                         (partitionStations stations (quadrants bounds)))).
Proof.
  induction fuel as [| fuel IH]; intros stations bounds r log Hrun;
    simpl in Hrun; [discriminate |].
  destruct (Nat.leb_spec (length stations) BASE_CASE_SIZE) as [Hle | Hgt].
  - injection Hrun as <- <-.
    split; [constructor | split; [reflexivity |]].
    unfold BASE_CASE_SIZE in Hle. lia.
  - destruct (solveQuadrantsLog _ _) as [[results sublog] |] eqn:Hsolve;
      [| discriminate].
    injection Hrun as <- <-.
    unfold solveQuadrantsLog in Hsolve.
    apply solve_fold_log_some in Hsolve.
    destruct Hsolve as [outs [Hrec [Hres Hlog]]]. simpl in Hres, Hlog.
    subst results sublog.
    assert (Hlen : length (map fst outs)
                   = length (filter hasStations
                               (partitionStations stations
                                  (quadrants bounds)))).
    { rewrite length_map. symmetry. eapply Forall2_length. exact Hrec. }
    split; [| split].
    + apply Forall_app. split.
      * assert (Houts : Forall (fun o => Forall (fun rs => (length rs <= 4)%nat)
                                               (snd o)) outs).
        { apply (Forall2_Forall_r _ _ _ _ Hrec). intros q [r0 sub] _ Hq.
          apply (IH _ _ _ _ Hq). }
        clear - Houts. induction Houts as [| o outs' Ho _ IHo]; simpl.
        -- constructor.
        -- apply Forall_app. split; assumption.
      * constructor; [| constructor]. rewrite Hlen.
        pose proof (filter_length_le hasStations
                      (partitionStations stations (quadrants bounds))) as Hf.
        rewrite partition_length in Hf. exact Hf.
    + unfold BASE_CASE_SIZE in Hgt. lia.
    + intros _. exists (concat (map snd outs)), (map fst outs).
      repeat split. exact Hlen.
Qed.

(** ** What the estimate depends on *)

Lemma Rsum_Forall2 {A B : Type} (R0 : A -> B -> Prop) (f : A -> R)
    (g : B -> R) (l1 : list A) (l2 : list B) :
  Forall2 R0 l1 l2 -> (forall a b, R0 a b -> f a = g b) ->
  Rsum f l1 = Rsum g l2.
Proof.
  intros H Hfg. induction H as [| a b l1 l2 Hab _ IH]; simpl; auto.
  rewrite (Hfg a b Hab), IH. reflexivity.
Qed.

Lemma std_min_shift (a b c : R) : std_min (a + c) (b + c) = std_min a b + c.
Proof.
  destruct (std_min_cases a b) as [[E H] | [E H]];
    destruct (std_min_cases (a + c) (b + c)) as [[E' H'] | [E' H']];
    rewrite E, E'; lra.
Qed.

Lemma min_time_loop_shifted (c : R) (l1 l2 : list SeismicStation.t) :
  Forall2 (shifted c) l1 l2 ->
  forall init,
    min_time_loop l2 (init + c) = min_time_loop l1 init + c.
Proof.
  unfold min_time_loop.
  induction 1 as [| s t l1 l2 [_ [_ Ht]] _ IH]; intros init; simpl; auto.
  rewrite Ht, std_min_shift. apply IH.
Qed.

Lemma minTimeOf_shifted (c : R) (l1 l2 : list SeismicStation.t) :
  Forall2 (shifted c) l1 l2 -> l1 <> [] ->
  minTimeOf l2 = minTimeOf l1 + c.
Proof.
  intros H Hne. destruct H as [| s t l1 l2 Hst Hrest]; [congruence |].
  unfold minTimeOf. destruct Hst as [Hlat [Hlon Ht]]. rewrite Ht.
  apply min_time_loop_shifted. constructor; [repeat split; auto | exact Hrest].
Qed.

Lemma stationWeight_shifted (c m : R) (s t : SeismicStation.t) :
  shifted c s t -> stationWeight m s = stationWeight (m + c) t.
Proof.
  intros [_ [_ Ht]]. unfold stationWeight. rewrite Ht.
  replace (detection_time s + c - (m + c)) with (detection_time s - m)
    by ring.
  reflexivity.
Qed.

Lemma residual_shifted (c m : R) (p : Point.t) (s t : SeismicStation.t) :
  shifted c s t -> residual p m s = residual p (m + c) t.
Proof.
  intros [Hlat [Hlon Ht]]. unfold residual, stationPoint.
  rewrite Hlat, Hlon, Ht.
  replace (detection_time s + c - (m + c)) with (detection_time s - m)
    by ring.
  reflexivity.
Qed.

Lemma weightedCenter_shifted (c m : R) (l1 l2 : list SeismicStation.t) :
  Forall2 (shifted c) l1 l2 ->
  weightedCenter m l1 = weightedCenter (m + c) l2.
Proof.
  intros H. unfold weightedCenter.
  rewrite (Rsum_Forall2 (shifted c) (stationWeight m)
             (stationWeight (m + c)) l1 l2 H)
    by (intros; apply stationWeight_shifted; assumption).
  rewrite (Rsum_Forall2 (shifted c)
             (fun s => latitude s * stationWeight m s)
             (fun s => latitude s * stationWeight (m + c) s) l1 l2 H).
  2:{ intros a b Hab. rewrite (stationWeight_shifted c m a b Hab).
      destruct Hab as [-> _]. reflexivity. }
  rewrite (Rsum_Forall2 (shifted c)
             (fun s => longitude s * stationWeight m s)
             (fun s => longitude s * stationWeight (m + c) s) l1 l2 H).
  2:{ intros a b Hab. rewrite (stationWeight_shifted c m a b Hab).
      destruct Hab as [_ [-> _]]. reflexivity. }
  reflexivity.
Qed.

(** The base-case estimator reads the coordinates and the differences of the
    detection times, nothing else. *)
Lemma simpleTriangulation_shifted (c : R) (l1 l2 : list SeismicStation.t) :
  Forall2 (shifted c) l1 l2 ->
  simpleTriangulation l2 = simpleTriangulation l1.
Proof.
  intros H. pose proof (Forall2_length H) as Hlen.
  destruct l1 as [| s1 [| s1' r1]]; destruct l2 as [| s2 [| s2' r2]];
    try discriminate.
  - reflexivity.
  - inversion H as [| a b la lb [Hlat [Hlon _]] _]; subst. simpl.
    rewrite Hlat, Hlon. reflexivity.
  - rewrite !simpleTriangulation_many by (simpl; lia).
    rewrite (minTimeOf_shifted c _ _ H) by congruence.
    rewrite <- (weightedCenter_shifted c _ _ _ H).
    rewrite <- (Rsum_Forall2 (shifted c)
                  (residual (weightedCenter (minTimeOf (s1 :: s1' :: r1))
                                            (s1 :: s1' :: r1))
                            (minTimeOf (s1 :: s1' :: r1)))
                  _ _ _ H)
      by (intros; apply residual_shifted; assumption).
    rewrite <- Hlen. reflexivity.
Qed.

Lemma contains_shifted (c : R) (b : GeoBounds.t) (s t : SeismicStation.t) :
  shifted c s t -> GeoBounds.contains b t = GeoBounds.contains b s.
Proof.
  intros [Hlat [Hlon _]]. unfold GeoBounds.contains.
  rewrite Hlat, Hlon. reflexivity.
Qed.

Lemma assignStation_shifted (c : R) (s t : SeismicStation.t)
    (qs1 qs2 : list Quadrant.t) :
  shifted c s t -> Forall2 (quadShifted c) qs1 qs2 ->
  Forall2 (quadShifted c) (assignStation s qs1) (assignStation t qs2).
Proof.
  intros Hst H. induction H as [| q1 q2 qs1 qs2 [Hb Hs] Hrest IH]; simpl.
  - constructor.
  - rewrite Hb, (contains_shifted c _ s t Hst).
    destruct (GeoBounds.contains (Quadrant.bounds q1) s).
    + constructor; [| exact Hrest]. split; simpl; [exact Hb |].
      apply Forall2_app; [exact Hs | constructor; [exact Hst | constructor]].
    + constructor; [split; assumption | exact IH].
Qed.

Lemma partitionStations_shifted (c : R) (l1 l2 : list SeismicStation.t) :
  Forall2 (shifted c) l1 l2 ->
  forall qs1 qs2,
    Forall2 (quadShifted c) qs1 qs2 ->
    Forall2 (quadShifted c) (partitionStations l1 qs1)
            (partitionStations l2 qs2).
Proof.
  unfold partitionStations.
  induction 1 as [| s t l1 l2 Hst _ IH]; intros qs1 qs2 Hq; simpl; auto.
  apply IH. apply assignStation_shifted; assumption.
Qed.

Lemma quadrants_shifted (c : R) (bounds : GeoBounds.t) :
  Forall2 (quadShifted c) (quadrants bounds) (quadrants bounds).
Proof. repeat constructor. Qed.

Lemma solve_fold_shifted (c : R)
    (recurse : list SeismicStation.t -> GeoBounds.t
               -> option EpicenterResult.t)
    (qs1 qs2 : list Quadrant.t) :
  (forall l1 l2 b, Forall2 (shifted c) l1 l2 -> recurse l1 b = recurse l2 b) ->
  Forall2 (quadShifted c) qs1 qs2 ->
  forall acc,
    fold_left (solve_step recurse) qs1 acc
    = fold_left (solve_step recurse) qs2 acc.
Proof.
  intros Hrec H. induction H as [| q1 q2 qs1 qs2 [Hb Hs] _ IH];
    intros acc; simpl; auto.
  rewrite IH. f_equal. destruct acc as [results |]; simpl; auto.
  rewrite Hb, (Hrec _ _ (Quadrant.bounds q1) Hs).
  destruct Hs; reflexivity.
Qed.

(** The driver reads the coordinates and the differences of the detection
    times, nothing else. *)
Lemma locateEpicenter_shifted (c : R) (fuel : nat) :
  forall (l1 l2 : list SeismicStation.t) (bounds : GeoBounds.t),
    Forall2 (shifted c) l1 l2 ->
    locateEpicenter fuel l1 bounds = locateEpicenter fuel l2 bounds.
Proof.
  induction fuel as [| fuel IH]; intros l1 l2 bounds H; simpl; auto.
  rewrite (Forall2_length H).
  destruct (length l2 <=? BASE_CASE_SIZE)%nat.
  - rewrite (simpleTriangulation_shifted c l1 l2 H). reflexivity.
  - unfold solveQuadrants.
    rewrite (solve_fold_shifted c (locateEpicenter fuel)
               (partitionStations l1 (quadrants bounds))
               (partitionStations l2 (quadrants bounds))).
    + reflexivity.
    + exact IH.
    + apply partitionStations_shifted; [exact H | apply quadrants_shifted].
Qed.

Lemma Forall2_map_r {A : Type} (R0 : A -> A -> Prop) (f : A -> A)
    (l : list A) :
  (forall a, R0 a (f a)) -> Forall2 R0 l (map f l).
Proof. intros H. induction l; simpl; constructor; auto. Qed.

(** X7: station numbers are never read: two inputs that agree, station by
    station, on latitude, longitude and detection time get the same answer,
    whatever their station numbers. *)
Theorem locateEpicenter_ignores_ids :
  forall (fuel : nat) (stations stations' : list SeismicStation.t)
         (bounds : GeoBounds.t),
    Forall2 (fun s t => latitude s = latitude t
                        /\ longitude s = longitude t
                        /\ detection_time s = detection_time t)
            stations stations' ->
    locateEpicenter fuel stations bounds
    = locateEpicenter fuel stations' bounds.
Proof.
  intros fuel stations stations' bounds H.
  apply (locateEpicenter_shifted 0). eapply Forall2_impl; [| exact H].
  intros s t [Hlat [Hlon Ht]]. repeat split; auto; lra.
Qed.

(** X8: only differences of detection times matter: moving every detection
    time by the same amount [c] changes neither the base-case estimate nor
    the answer of the driver. *)
Theorem estimate_ignores_clock_offset :
  forall (c : R) (stations : list SeismicStation.t),
    simpleTriangulation (map (delay c) stations)
    = simpleTriangulation stations
    /\ forall (fuel : nat) (bounds : GeoBounds.t),
         locateEpicenter fuel (map (delay c) stations) bounds
         = locateEpicenter fuel stations bounds.
Proof.
  intros c stations.
  assert (H : Forall2 (shifted c) stations (map (delay c) stations)).
  { apply Forall2_map_r. intros s. repeat split. }
  split.
  - apply (simpleTriangulation_shifted c). exact H.
  - intros fuel bounds. symmetry. apply (locateEpicenter_shifted c). exact H.
Qed.

(** ** Averages stay between their terms *)

Lemma Rsum_weighted_bounds {A : Type} (f w : A -> R) (l : list A)
    (lo hi : R) :
  (forall a, In a l -> 0 < w a) ->
  (forall a, In a l -> lo <= f a <= hi) ->
  lo * Rsum w l <= Rsum (fun a => f a * w a) l <= hi * Rsum w l.
Proof.
  induction l as [| a rest IH]; simpl; intros Hw Hf.
  - lra.
  - assert (Ha : 0 < w a) by (apply Hw; auto).
    assert (Hfa : lo <= f a <= hi) by (apply Hf; auto).
    destruct IH as [IH1 IH2];
      [intros; apply Hw; auto | intros; apply Hf; auto |].
    split; nra.
Qed.

Lemma weighted_average_bounds {A : Type} (f w : A -> R) (l : list A)
    (lo hi : R) :
  l <> [] ->
  (forall a, In a l -> 0 < w a) ->
  (forall a, In a l -> lo <= f a <= hi) ->
  lo <= Rsum (fun a => f a * w a) l / Rsum w l <= hi.
Proof.
  intros Hne Hw Hf.
  pose proof (Rsum_pos w l Hne Hw) as Hpos.
  destruct (Rsum_weighted_bounds f w l lo hi Hw Hf) as [H1 H2].
  split.
  - apply (Rmult_le_reg_r (Rsum w l)); [exact Hpos |].
    unfold Rdiv. rewrite Rmult_assoc, Rinv_l by lra. lra.
  - apply (Rmult_le_reg_r (Rsum w l)); [exact Hpos |].
    unfold Rdiv. rewrite Rmult_assoc, Rinv_l by lra. lra.
Qed.

Lemma Rsum_bounds {A : Type} (f : A -> R) (l : list A) (lo hi : R) :
  (forall a, In a l -> lo <= f a <= hi) ->
  lo * INR (length l) <= Rsum f l <= hi * INR (length l).
Proof.
  induction l as [| a rest IH]; intros Hf.
  - simpl. lra.
  - assert (Hfa : lo <= f a <= hi) by (apply Hf; simpl; auto).
    destruct IH as [IH1 IH2]; [intros; apply Hf; simpl; auto |].
    change (length (a :: rest)) with (S (length rest)). rewrite S_INR.
    simpl Rsum. split; nra.
Qed.

Lemma mean_bounds {A : Type} (f : A -> R) (l : list A) (lo hi : R) :
  l <> [] ->
  (forall a, In a l -> lo <= f a <= hi) ->
  lo <= Rsum f l / INR (length l) <= hi.
Proof.
  intros Hne Hf.
  pose proof (INR_length_pos l Hne) as Hpos.
  destruct (Rsum_bounds f l lo hi Hf) as [H1 H2].
  split.
  - apply (Rmult_le_reg_r (INR (length l))); [exact Hpos |].
    unfold Rdiv. rewrite Rmult_assoc, Rinv_l by lra. lra.
  - apply (Rmult_le_reg_r (INR (length l))); [exact Hpos |].
    unfold Rdiv. rewrite Rmult_assoc, Rinv_l by lra. lra.
Qed.

(** ** The weights of the base-case estimator *)

Lemma stationWeight_le_1 (min_time : R) (s : SeismicStation.t) :
  stationWeight min_time s <= 1.
Proof.
  unfold stationWeight.
  pose proof (pow2_ge_0 (detection_time s - min_time)) as Hsq.
  apply (Rmult_le_reg_r (1 + (detection_time s - min_time) ^ 2)); [lra |].
  unfold Rdiv. rewrite Rmult_assoc, Rinv_l by lra. lra.
Qed.

Lemma stationWeight_reference (s : SeismicStation.t) :
  stationWeight (detection_time s) s = 1.
Proof. unfold stationWeight. apply weight_same_time. Qed.

Lemma Rsum_ge_term {A : Type} (f : A -> R) (l : list A) (a : A) :
  (forall b, In b l -> 0 <= f b) -> In a l -> f a <= Rsum f l.
Proof.
  induction l as [| b rest IH]; simpl; intros Hf Hin; [contradiction |].
  assert (0 <= f b) by (apply Hf; auto).
  assert (0 <= Rsum f rest) by (apply Rsum_nonneg; intros; apply Hf; auto).
  destruct Hin as [-> | Hin]; [lra |].
  assert (f a <= Rsum f rest) by (apply IH; auto). lra.
Qed.

(** X9: on two or more stations every weight lies between 0 and 1, a
    station that reported at the earliest detection time has weight
    exactly 1, and the accumulator [total_weight], by which the estimator
    divides, ends between 1 and the number of stations: the division is
    never by zero. *)
Theorem simpleTriangulation_total_weight :
  forall stations : list SeismicStation.t,
    (2 <= length stations)%nat ->
    let min_time := minTimeOf stations in
    let total_weight := snd (weight_loop min_time stations) in
    (forall s, In s stations ->
       0 <= 1 / (1 + (detection_time s - min_time)
                     * (detection_time s - min_time)) <= 1)
    /\ (exists s, In s stations
                  /\ detection_time s = min_time
                  /\ 1 / (1 + (detection_time s - min_time)
                               * (detection_time s - min_time)) = 1)
    /\ 1 <= total_weight <= INR (length stations).
Proof.
  intros stations Hlen m tw.
  assert (Hne : stations <> [])
    by (destruct stations; simpl in *; [lia | congruence]).
  destruct (minTimeOf_is_minimum stations Hne) as [Hin _].
  apply in_map_iff in Hin. destruct Hin as [s0 [Hs0 Hin0]].
  fold m in Hs0.
  assert (Hone : stationWeight m s0 = 1).
  { rewrite <- Hs0. apply stationWeight_reference. }
  split; [| split].
  - intros s _. rewrite stationWeight_product. split.
    + apply Rlt_le, stationWeight_pos.
    + apply stationWeight_le_1.
  - exists s0. split; [exact Hin0 | split; [exact Hs0 |]].
    rewrite stationWeight_product. exact Hone.
  - unfold tw. rewrite weight_loop_sums. simpl snd. split.
    + rewrite <- Hone. apply Rsum_ge_term; [| exact Hin0].
      intros b _. apply Rlt_le, stationWeight_pos.
    + destruct (Rsum_bounds (stationWeight m) stations 0 1) as [_ H].
      * intros a _. split; [apply Rlt_le, stationWeight_pos
                           | apply stationWeight_le_1].
      * lra.
Qed.

(** ** Estimates stay inside the region *)

Lemma weightedCenter_inside (b : GeoBounds.t) (m : R)
    (stations : list SeismicStation.t) :
  stations <> [] ->
  Forall (fun s => GeoBounds.contains b s = true) stations ->
  insideRegion b (weightedCenter m stations).
Proof.
  intros Hne Hall. rewrite Forall_forall in Hall.
  unfold insideRegion, weightedCenter. simpl. split.
  - apply (weighted_average_bounds latitude (stationWeight m)); auto.
    + intros s _. apply stationWeight_pos.
    + intros s Hs. apply (contains_spec b s). apply Hall. exact Hs.
  - apply (weighted_average_bounds longitude (stationWeight m)); auto.
    + intros s _. apply stationWeight_pos.
    + intros s Hs. apply (contains_spec b s). apply Hall. exact Hs.
Qed.

Lemma simpleTriangulation_inside (b : GeoBounds.t)
    (stations : list SeismicStation.t) :
  stations <> [] ->
  Forall (fun s => GeoBounds.contains b s = true) stations ->
  insideRegion b (EpicenterResult.location (simpleTriangulation stations)).
Proof.
  intros Hne Hall. destruct stations as [| s0 [| s1 rest]]; [congruence | |].
  - inversion Hall as [| s l Hs _]; subst. apply contains_spec in Hs.
    exact Hs.
  - rewrite simpleTriangulation_many by (simpl; lia).
    apply weightedCenter_inside; assumption.
Qed.

(** X10: the base-case estimate never leaves the region of its stations:
    for a non-empty list of stations that all lie in a region (any region,
    bounds included), the estimated location lies in that region. *)
Theorem simpleTriangulation_stays_inside :
  forall (stations : list SeismicStation.t) (b : GeoBounds.t),
    stations <> [] ->
    Forall (fun s => GeoBounds.contains b s = true) stations ->
    let p := EpicenterResult.location (simpleTriangulation stations) in
    GeoBounds.min_lat b <= Point.x p <= GeoBounds.max_lat b
    /\ GeoBounds.min_lon b <= Point.y p <= GeoBounds.max_lon b.
Proof.
  intros stations b Hne Hall. apply simpleTriangulation_inside; assumption.
Qed.

(** ** The combiner averages *)

Lemma weightedCombination_between (f : EpicenterResult.t -> R)
    (results : list EpicenterResult.t) (lo hi : R) :
  results <> [] ->
  Forall (fun e => 0 < EpicenterResult.confidence e) results ->
  (forall e, In e results -> lo <= f e <= hi) ->
  lo <= Rsum (conf_weighted f) results
        / Rsum EpicenterResult.confidence results <= hi.
Proof.
  intros Hne Hpos Hf. rewrite Forall_forall in Hpos.
  apply (weighted_average_bounds f EpicenterResult.confidence); auto.
Qed.

(** X11: when it is given estimates of positive confidence, the combiner
    returns averages: each coordinate of the combined location, the
    combined confidence and the combined error lie between any two bounds
    that hold for the corresponding value of every estimate it was given. *)
Theorem weightedCombination_between_inputs :
  forall (results : list EpicenterResult.t) (lo hi : R),
    results <> [] ->
    Forall (fun e => 0 < EpicenterResult.confidence e) results ->
    let combined := weightedCombination results in
    ((forall e, In e results ->
        lo <= Point.x (EpicenterResult.location e) <= hi) ->
     lo <= Point.x (EpicenterResult.location combined) <= hi)
    /\ ((forall e, In e results ->
           lo <= Point.y (EpicenterResult.location e) <= hi) ->
        lo <= Point.y (EpicenterResult.location combined) <= hi)
    /\ ((forall e, In e results -> lo <= EpicenterResult.confidence e <= hi) ->
        lo <= EpicenterResult.confidence combined <= hi)
    /\ ((forall e, In e results -> lo <= EpicenterResult.error e <= hi) ->
        lo <= EpicenterResult.error combined <= hi).
Proof.
  intros results lo hi Hne Hpos combined. unfold combined.
  destruct results as [| r1 [| r2 rest]]; [congruence | |].
  - simpl. split; [| split; [| split]]; intros Hb; apply Hb; auto.
  - rewrite weightedCombination_many by (simpl; lia).
    cbn [EpicenterResult.location EpicenterResult.confidence
         EpicenterResult.error Point.x Point.y].
    split; [| split; [| split]]; intros Hb.
    + apply (weightedCombination_between result_x); assumption.
    + apply (weightedCombination_between result_y); assumption.
    + apply mean_bounds; assumption.
    + apply (weightedCombination_between EpicenterResult.error); assumption.
Qed.

(** ** What the driver returns on stations of the region *)

(** A sound estimate for a region: inside it, of confidence in (0,1] and
    of error at least 0. *)
Lemma simpleTriangulation_sound (b : GeoBounds.t)
    (stations : list SeismicStation.t) :
  stations <> [] ->
  Forall (fun s => GeoBounds.contains b s = true) stations ->
  let r := simpleTriangulation stations in
  insideRegion b (EpicenterResult.location r)
  /\ 0 < EpicenterResult.confidence r <= 1
  /\ 0 <= EpicenterResult.error r.
Proof.
  intros Hne Hall r. split; [apply simpleTriangulation_inside; assumption |].
  unfold r. destruct stations as [| s0 [| s1 rest]]; [congruence | |].
  - simpl. lra.
  - rewrite simpleTriangulation_many by (simpl; lia).
    cbn [EpicenterResult.confidence EpicenterResult.error].
    assert (He : 0 <= Rsum (residual
                              (weightedCenter (minTimeOf (s0 :: s1 :: rest))
                                              (s0 :: s1 :: rest))
                              (minTimeOf (s0 :: s1 :: rest)))
                           (s0 :: s1 :: rest)).
    { apply Rsum_nonneg. intros s _. apply residual_nonneg. }
    split; [| exact He].
    apply confidence_bounds; [exact He |].
    apply INR_length_pos. congruence.
Qed.

Lemma insideRegion_quadrant (bounds q : GeoBounds.t) (p : Point.t) :
  In q (quadrantBounds bounds) -> insideRegion q p -> insideRegion bounds p.
Proof.
  unfold insideRegion. simpl.
  intros [<- | [<- | [<- | [<- | []]]]]; simpl; lra.
Qed.

Lemma locateEpicenter_sound (fuel : nat) :
  forall (stations : list SeismicStation.t) (bounds : GeoBounds.t)
         (r : EpicenterResult.t),
    stations <> [] ->
    Forall (fun s => GeoBounds.contains bounds s = true) stations ->
    locateEpicenter fuel stations bounds = Some r ->
    insideRegion bounds (EpicenterResult.location r)
    /\ 0 < EpicenterResult.confidence r <= 1
    /\ 0 <= EpicenterResult.error r.
Proof.
  induction fuel as [| fuel IH]; intros stations bounds r Hne Hall Hrun;
    [discriminate |].
  destruct (Nat.leb_spec (length stations) BASE_CASE_SIZE) as [Hle | Hgt].
  - rewrite locateEpicenter_small in Hrun by exact Hle.
    injection Hrun as <-. apply simpleTriangulation_sound; assumption.
  - rewrite locateEpicenter_large in Hrun by exact Hgt.
    destruct (solveQuadrants _ _) as [results |] eqn:Hsolve; [| discriminate].
    injection Hrun as <-. apply solveQuadrants_spec in Hsolve.
    assert (Hres : Forall (fun e =>
                             insideRegion bounds (EpicenterResult.location e)
                             /\ 0 < EpicenterResult.confidence e <= 1
                             /\ 0 <= EpicenterResult.error e) results).
    { apply (Forall2_Forall_r _ _ _ _ Hsolve). intros q e Hq Hsub.
      apply filter_In in Hq. destruct Hq as [Hin Hhas].
      destruct (bucket_properties _ _ _ Hin) as [Hb [Hwithin _]].
      destruct (IH (Quadrant.stations q) (Quadrant.bounds q) e) as [Hi Hrest];
        auto.
      - apply hasStations_nonempty. exact Hhas.
      - split; [| exact Hrest].
        apply (insideRegion_quadrant bounds (Quadrant.bounds q)); assumption. }
    assert (Hne' : results <> []).
    { intros Hnil. apply (partition_some_bucket stations bounds Hne Hall).
      apply Forall2_length in Hsolve. rewrite Hnil in Hsolve.
      destruct (filter hasStations _); [reflexivity | discriminate]. }
    rewrite Forall_forall in Hres.
    assert (Hpos : Forall (fun e => 0 < EpicenterResult.confidence e) results).
    { apply Forall_forall. intros e He. apply (Hres e He). }
    destruct results as [| r1 [| r2 rest]]; [congruence | |].
    + simpl. apply Hres. simpl. auto.
    + rewrite weightedCombination_many by (simpl; lia).
      unfold insideRegion.
      cbn [EpicenterResult.location EpicenterResult.confidence
           EpicenterResult.error Point.x Point.y].
      split; [split | split; [split |]].
      * apply (weightedCombination_between result_x); auto.
        intros e He. apply (Hres e He).
      * apply (weightedCombination_between result_y); auto.
        intros e He. apply (Hres e He).
      * apply Rdiv_lt_0_compat.
        -- apply Rsum_pos; auto. intros e He. apply (Hres e He).
        -- apply INR_length_pos. congruence.
      * apply (mean_bounds EpicenterResult.confidence _ 0 1); auto.
        intros e He. destruct (Hres e He) as [_ [[H1 H2] _]]. lra.
      * apply (weightedCombination_between EpicenterResult.error _ 0
                 (Rsum EpicenterResult.error (r1 :: r2 :: rest))); auto.
        intros e He. split; [apply (Hres e He) |].
        apply Rsum_ge_term; [| exact He].
        intros e' He'. apply (Hres e' He').
Qed.

(** X12: on a non-empty list of stations that all lie in the region, every
    estimate that [locateEpicenter] returns lies in the region, bounds
    included, has a confidence of at most 1 and an error of at least 0. *)
Theorem locateEpicenter_estimate_in_region :
  forall (fuel : nat) (stations : list SeismicStation.t)
         (bounds : GeoBounds.t) (r : EpicenterResult.t),
    stations <> [] ->
    Forall (fun s => GeoBounds.contains bounds s = true) stations ->
    locateEpicenter fuel stations bounds = Some r ->
    (GeoBounds.min_lat bounds <= Point.x (EpicenterResult.location r)
     <= GeoBounds.max_lat bounds
     /\ GeoBounds.min_lon bounds <= Point.y (EpicenterResult.location r)
        <= GeoBounds.max_lon bounds)
    /\ EpicenterResult.confidence r <= 1
    /\ 0 <= EpicenterResult.error r.
Proof.
  intros fuel stations bounds r Hne Hall Hrun.
  destruct (locateEpicenter_sound fuel stations bounds r Hne Hall Hrun)
    as [Hin [[_ Hc] He]].
  split; [exact Hin | split; assumption].
Qed.

(** ** Particular station sets *)

Lemma Rsum_ext_in {A : Type} (f g : A -> R) (l : list A) :
  (forall a, In a l -> f a = g a) -> Rsum f l = Rsum g l.
Proof.
  induction l as [| a rest IH]; simpl; intros H; auto.
  rewrite (H a) by auto. rewrite IH; auto.
Qed.

Lemma Rsum_one {A : Type} (l : list A) :
  Rsum (fun _ => 1) l = INR (length l).
Proof.
  induction l as [| a rest IH]; [reflexivity |].
  change (length (a :: rest)) with (S (length rest)). rewrite S_INR.
  simpl. rewrite IH. ring.
Qed.

Lemma Rsum_scale {A : Type} (c : R) (f : A -> R) (l : list A) :
  Rsum (fun a => c * f a) l = c * Rsum f l.
Proof.
  induction l as [| a rest IH]; simpl; [ring |]. rewrite IH. ring.
Qed.

Lemma minTimeOf_constant (t : R) (stations : list SeismicStation.t) :
  stations <> [] ->
  (forall s, In s stations -> detection_time s = t) ->
  minTimeOf stations = t.
Proof.
  intros Hne Ht. destruct (minTimeOf_is_minimum stations Hne) as [Hin _].
  apply in_map_iff in Hin. destruct Hin as [s [<- Hs]]. apply Ht. exact Hs.
Qed.

(** X13: when two or more stations all report the same detection time,
    every weight is 1 and the estimate is the centroid of the stations:
    the arithmetic mean of the latitudes and of the longitudes. *)
Theorem simpleTriangulation_simultaneous :
  forall (stations : list SeismicStation.t) (t : R),
    (2 <= length stations)%nat ->
    (forall s, In s stations -> detection_time s = t) ->
    EpicenterResult.location (simpleTriangulation stations)
    = Point.mk (Rsum latitude stations / INR (length stations))
               (Rsum longitude stations / INR (length stations)).
Proof.
  intros stations t Hlen Ht.
  assert (Hne : stations <> [])
    by (destruct stations; simpl in *; [lia | congruence]).
  rewrite simpleTriangulation_many by exact Hlen.
  cbn [EpicenterResult.location]. unfold weightedCenter.
  rewrite (minTimeOf_constant t stations Hne Ht).
  assert (Hw : forall s, In s stations -> stationWeight t s = 1).
  { intros s Hs. rewrite <- (Ht s Hs). apply stationWeight_reference. }
  rewrite (Rsum_ext_in (stationWeight t) (fun _ => 1) stations Hw), Rsum_one.
  rewrite (Rsum_ext_in (fun s => latitude s * stationWeight t s) latitude)
    by (intros s Hs; rewrite (Hw s Hs); ring).
  rewrite (Rsum_ext_in (fun s => longitude s * stationWeight t s) longitude)
    by (intros s Hs; rewrite (Hw s Hs); ring).
  reflexivity.
Qed.

(** X14: when two or more stations all stand at the same place, the
    estimate is that place, whatever the detection times, and the error is
    the sum of the squared delays after the earliest detection; when they
    also report the same detection time, the error is 0 and the confidence
    is 1. *)
Theorem simpleTriangulation_colocated :
  forall (stations : list SeismicStation.t) (lat lon : R),
    (2 <= length stations)%nat ->
    (forall s, In s stations -> latitude s = lat /\ longitude s = lon) ->
    let r := simpleTriangulation stations in
    EpicenterResult.location r = Point.mk lat lon
    /\ EpicenterResult.error r
       = Rsum (fun s => (detection_time s - minTimeOf stations) ^ 2) stations
    /\ forall t, (forall s, In s stations -> detection_time s = t) ->
                 EpicenterResult.error r = 0
                 /\ EpicenterResult.confidence r = 1.
Proof.
  intros stations lat lon Hlen Hplace r.
  assert (Hne : stations <> [])
    by (destruct stations; simpl in *; [lia | congruence]).
  assert (Hr : r = simpleTriangulation stations) by reflexivity.
  rewrite (simpleTriangulation_many stations Hlen) in Hr.
  set (m := minTimeOf stations) in *.
  assert (Hpos : 0 < Rsum (stationWeight m) stations).
  { apply Rsum_pos; auto. intros s _. apply stationWeight_pos. }
  assert (Hc : weightedCenter m stations = Point.mk lat lon).
  { unfold weightedCenter.
    rewrite (Rsum_ext_in (fun s => latitude s * stationWeight m s)
               (fun s => lat * stationWeight m s))
      by (intros s Hs; rewrite (proj1 (Hplace s Hs)); reflexivity).
    rewrite (Rsum_ext_in (fun s => longitude s * stationWeight m s)
               (fun s => lon * stationWeight m s))
      by (intros s Hs; rewrite (proj2 (Hplace s Hs)); reflexivity).
    rewrite !Rsum_scale. f_equal; field; lra. }
  assert (He : EpicenterResult.error r
               = Rsum (fun s => (detection_time s - m) ^ 2) stations).
  { rewrite Hr. cbn [EpicenterResult.error]. rewrite Hc.
    apply Rsum_ext_in. intros s Hs. unfold residual, stationPoint.
    rewrite (proj1 (Hplace s Hs)), (proj2 (Hplace s Hs)).
    replace (Point.distance (Point.mk lat lon) (Point.mk lat lon)) with 0.
    - unfold Rdiv. ring.
    - unfold Point.distance. simpl.
      replace ((lat - lat) * (lat - lat) + (lon - lon) * (lon - lon))
        with 0 by ring.
      symmetry. apply sqrt_0. }
  split; [rewrite Hr; exact Hc | split; [exact He |]].
  intros t Ht.
  assert (Hzero : EpicenterResult.error r = 0).
  { rewrite He. unfold m. rewrite (minTimeOf_constant t stations Hne Ht).
    rewrite (Rsum_ext_in _ (fun _ => 0 * 1)).
    - rewrite Rsum_scale. ring.
    - intros s Hs. rewrite (Ht s Hs). ring. }
  split; [exact Hzero |].
  assert (Hconf : EpicenterResult.confidence r
                  = 1 / (1 + EpicenterResult.error r
                             / INR (length stations))).
  { rewrite Hr. reflexivity. }
  rewrite Hconf, Hzero. unfold Rdiv. rewrite Rmult_0_l, Rplus_0_r, Rinv_1.
  ring.
Qed.

(** ** A level that does not divide *)

Lemma filter_all {A : Type} (f : A -> bool) (l : list A) :
  (forall a, In a l -> f a = true) -> filter f l = l.
Proof.
  induction l as [| a rest IH]; simpl; intros H; auto.
  rewrite (H a) by auto. rewrite IH; auto.
Qed.

Lemma filter_none {A : Type} (f : A -> bool) (l : list A) :
  (forall a, In a l -> f a = false) -> filter f l = [].
Proof.
  induction l as [| a rest IH]; simpl; intros H; auto.
  rewrite (H a) by auto. apply IH; auto.
Qed.

Lemma solveQuadrants_single
    (recurse : list SeismicStation.t -> GeoBounds.t
               -> option EpicenterResult.t)
    (quads : list Quadrant.t) (q : Quadrant.t) :
  filter hasStations quads = [q] ->
  match solveQuadrants recurse quads with
  | Some results => Some (weightedCombination results)
  | None => None
  end
  = recurse (Quadrant.stations q) (Quadrant.bounds q).
Proof.
  intros Hq.
  destruct (recurse (Quadrant.stations q) (Quadrant.bounds q)) as [r |]
    eqn:Hr.
  - assert (Hs : solveQuadrants recurse quads = Some [r]).
    { apply solveQuadrants_spec. rewrite Hq. repeat constructor. exact Hr. }
    rewrite Hs. reflexivity.
  - destruct (solveQuadrants recurse quads) as [results |] eqn:Hs;
      [| reflexivity].
    apply solveQuadrants_spec in Hs. rewrite Hq in Hs.
    inversion Hs as [| a b la lb Hab _]; subst.
    unfold solvedBy in Hab. congruence.
Qed.

(** X15: a level at which every station falls into the same quadrant adds
    nothing: when more than eight stations lie in the region and the split
    lines put them all into the quadrant of index [i], the answer for the
    region is the answer for that quadrant on the same stations, at one
    level less of fuel. *)
Theorem locateEpicenter_single_quadrant :
  forall (fuel : nat) (stations : list SeismicStation.t)
         (bounds q : GeoBounds.t) (i : nat),
    (8 < length stations)%nat ->
    (forall s, In s stations ->
       GeoBounds.contains bounds s = true /\ quadrantIndex bounds s = i) ->
    nth_error (map Quadrant.bounds (quadrants bounds)) i = Some q ->
    locateEpicenter (S fuel) stations bounds
    = locateEpicenter fuel stations q.
Proof.
  intros fuel stations bounds q i Hlen Hall Hq.
  rewrite locateEpicenter_large by exact Hlen.
  assert (Hgo : forall j s, In s stations ->
                  goesTo (quadrantBounds bounds) j s = (i =? j)%nat).
  { intros j s Hs. unfold goesTo. rewrite firstContaining_quadrants.
    destruct (Hall s Hs) as [-> ->]. reflexivity. }
  assert (Hbucket : forall j quad,
            nth_error (partitionStations stations (quadrants bounds)) j
            = Some quad ->
            nth_error (quadrantBounds bounds) j = Some (Quadrant.bounds quad)
            /\ Quadrant.stations quad = if (i =? j)%nat then stations else []).
  { intros j quad Hn. destruct (partition_bucket _ _ _ _ Hn) as [Hb Hs].
    split; [exact Hb |]. rewrite Hs. destruct (i =? j)%nat eqn:Hij.
    - apply filter_all. intros s Hin. rewrite (Hgo j s Hin). exact Hij.
    - apply filter_none. intros s Hin. rewrite (Hgo j s Hin). exact Hij. }
  pose proof (partition_length stations bounds) as Hfour.
  destruct (partitionStations stations (quadrants bounds))
    as [| q0 [| q1 [| q2 [| q3 [| q4 rest]]]]]; try discriminate.
  destruct (Hbucket 0%nat q0 eq_refl) as [Hb0 Hs0].
  destruct (Hbucket 1%nat q1 eq_refl) as [Hb1 Hs1].
  destruct (Hbucket 2%nat q2 eq_refl) as [Hb2 Hs2].
  destruct (Hbucket 3%nat q3 eq_refl) as [Hb3 Hs3].
  assert (Hne : stations <> [])
    by (destruct stations; simpl in *; [lia | congruence]).
  assert (Hi : (i < 4)%nat) by (apply nth_error_lt in Hq; exact Hq).
  change (map Quadrant.bounds (quadrants bounds))
    with (quadrantBounds bounds) in Hq.
  destruct i as [| [| [| [| i]]]]; try lia; cbn in Hs0, Hs1, Hs2, Hs3.
  - rewrite Hq in Hb0. injection Hb0 as Hb0.
    rewrite (solveQuadrants_single _ _ q0); [congruence |].
    simpl. unfold hasStations. rewrite Hs0, Hs1, Hs2, Hs3.
    destruct stations; [congruence | reflexivity].
  - rewrite Hq in Hb1. injection Hb1 as Hb1.
    rewrite (solveQuadrants_single _ _ q1); [congruence |].
    simpl. unfold hasStations. rewrite Hs0, Hs1, Hs2, Hs3.
    destruct stations; [congruence | reflexivity].
  - rewrite Hq in Hb2. injection Hb2 as Hb2.
    rewrite (solveQuadrants_single _ _ q2); [congruence |].
    simpl. unfold hasStations. rewrite Hs0, Hs1, Hs2, Hs3.
    destruct stations; [congruence | reflexivity].
  - rewrite Hq in Hb3. injection Hb3 as Hb3.
    rewrite (solveQuadrants_single _ _ q3); [congruence |].
    simpl. unfold hasStations. rewrite Hs0, Hs1, Hs2, Hs3.
    destruct stations; [congruence | reflexivity].
Qed.

(** ** The data generator *)

Lemma generate_loop_unfold (uniform : Sampler) (true_epicenter : Point.t)
    (region : GeoBounds.t) (remaining : nat) :
  forall (start : nat) (stations : list SeismicStation.t),
    generate_loop uniform true_epicenter region remaining (Z.of_nat start)
                  (3 * start)%nat stations
    = stations
      ++ map (fun j => generate_step uniform true_epicenter region
                         (Z.of_nat j) (3 * j)%nat)
             (seq start remaining).
Proof.
  induction remaining as [| n IH]; intros start stations; simpl.
  - rewrite app_nil_r. reflexivity.
  - replace (Z.of_nat start + 1)%Z with (Z.of_nat (S start)) by lia.
    replace (S (S (S (start + (start + (start + 0))))))
      with (3 * S start)%nat by lia.
    rewrite IH, <- app_assoc. reflexivity.
Qed.

Lemma generateEarthquakeData_unfold (uniform : Sampler) (num_stations : Z)
    (true_epicenter : Point.t) (region : GeoBounds.t) :
  generateEarthquakeData uniform num_stations true_epicenter region
  = map (fun j => generate_step uniform true_epicenter region
                    (Z.of_nat j) (3 * j)%nat)
        (seq 0 (Z.to_nat num_stations)).
Proof.
  unfold generateEarthquakeData.
  apply (generate_loop_unfold uniform true_epicenter region
           (Z.to_nat num_stations) 0%nat []).
Qed.

Lemma generate_step_in_region (uniform : Sampler) (true_epicenter : Point.t)
    (region : GeoBounds.t) (i : Z) (gen : nat) :
  inRange uniform ->
  GeoBounds.min_lat region <= GeoBounds.max_lat region ->
  GeoBounds.min_lon region <= GeoBounds.max_lon region ->
  GeoBounds.contains region
    (generate_step uniform true_epicenter region i gen) = true.
Proof.
  intros Hu Hlat Hlon. apply contains_spec. unfold generate_step. simpl.
  split; apply Hu; assumption.
Qed.

Lemma generated_in_region (uniform : Sampler) (num_stations : Z)
    (true_epicenter : Point.t) (region : GeoBounds.t) :
  inRange uniform ->
  GeoBounds.min_lat region <= GeoBounds.max_lat region ->
  GeoBounds.min_lon region <= GeoBounds.max_lon region ->
  Forall (fun s => GeoBounds.contains region s = true)
         (generateEarthquakeData uniform num_stations true_epicenter region).
Proof.
  intros Hu Hlat Hlon. rewrite generateEarthquakeData_unfold.
  apply Forall_forall. intros s Hs. apply in_map_iff in Hs.
  destruct Hs as [j [<- _]]. apply generate_step_in_region; assumption.
Qed.

(** X16: the generator returns [num_stations] stations (none when the
    count is zero or negative), numbered 0, 1, 2, ... in order; when the
    draws respect their intervals and the region is well formed, every
    station lies in the region and its detection time differs from the
    travel time [distance(true_epicenter, station) / 6] by at most 0.5. *)
Theorem generateEarthquakeData_stations :
  forall (uniform : Sampler) (num_stations : Z) (true_epicenter : Point.t)
         (region : GeoBounds.t),
    let stations :=
      generateEarthquakeData uniform num_stations true_epicenter region in
    length stations = Z.to_nat num_stations
    /\ map SeismicStation.id stations
       = map Z.of_nat (seq 0 (Z.to_nat num_stations))
    /\ (inRange uniform ->
        GeoBounds.min_lat region <= GeoBounds.max_lat region ->
        GeoBounds.min_lon region <= GeoBounds.max_lon region ->
        Forall (fun s =>
                  GeoBounds.contains region s = true
                  /\ Rabs (detection_time s
                           - Point.distance true_epicenter
                               (Point.mk (latitude s) (longitude s)) / 6)
                     <= 0.5) stations).
Proof.
  intros uniform num_stations true_epicenter region stations.
  unfold stations. rewrite generateEarthquakeData_unfold.
  split; [| split].
  - rewrite length_map, length_seq. reflexivity.
  - rewrite map_map. reflexivity.
  - intros Hu Hlat Hlon. apply Forall_forall. intros s Hs.
    apply in_map_iff in Hs. destruct Hs as [j [<- _]]. split.
    + apply generate_step_in_region; assumption.
    + unfold generate_step, WAVE_VELOCITY. simpl.
      assert (Hn : -0.5 <= uniform (-0.5) 0.5 (S (S (3 * j)%nat)) <= 0.5)
        by (apply Hu; lra).
      simpl in Hn. apply Rabs_le. lra.
Qed.

(** X17: the generator feeds the locator as the program does: for a
    well-formed region, draws within their intervals and at least one
    station, every estimate that [locateEpicenter] returns on the generated
    stations lies in the region and has a confidence in (0,1]. *)
Theorem generated_data_located_in_region :
  forall (uniform : Sampler) (num_stations : Z) (true_epicenter : Point.t)
         (region : GeoBounds.t) (fuel : nat) (r : EpicenterResult.t),
    inRange uniform ->
    GeoBounds.min_lat region <= GeoBounds.max_lat region ->
    GeoBounds.min_lon region <= GeoBounds.max_lon region ->
    (1 <= num_stations)%Z ->
    locateEpicenter fuel
      (generateEarthquakeData uniform num_stations true_epicenter region)
      region = Some r ->
    (GeoBounds.min_lat region <= Point.x (EpicenterResult.location r)
     <= GeoBounds.max_lat region
     /\ GeoBounds.min_lon region <= Point.y (EpicenterResult.location r)
        <= GeoBounds.max_lon region)
    /\ 0 < EpicenterResult.confidence r <= 1.
Proof.
  intros uniform num_stations true_epicenter region fuel r Hu Hlat Hlon Hn
    Hrun.
  destruct (locateEpicenter_sound fuel
              (generateEarthquakeData uniform num_stations true_epicenter
                 region) region r) as [Hin [Hc _]].
  - intros Hnil. apply (f_equal (@length _)) in Hnil.
    rewrite generateEarthquakeData_unfold, length_map, length_seq in Hnil.
    simpl in Hnil. lia.
  - apply generated_in_region; assumption.
  - exact Hrun.
  - split; assumption.
Qed.

(** ** The order of the inputs *)

Lemma Rsum_Permutation {A : Type} (f : A -> R) (l l' : list A) :
  Permutation l l' -> Rsum f l = Rsum f l'.
Proof.
  induction 1 as [| a l l' _ IH | a b l | l l' l'' _ IH1 _ IH2]; simpl.
  - reflexivity.
  - rewrite IH. reflexivity.
  - ring.
  - rewrite IH1. exact IH2.
Qed.

Lemma minTimeOf_Permutation (l l' : list SeismicStation.t) :
  l <> [] -> Permutation l l' -> minTimeOf l = minTimeOf l'.
Proof.
  intros Hne Hperm.
  assert (Hne' : l' <> []).
  { intros ->. apply Permutation_sym, Permutation_nil in Hperm. congruence. }
  destruct (minTimeOf_is_minimum l Hne) as [Hin Hmin].
  destruct (minTimeOf_is_minimum l' Hne') as [Hin' Hmin'].
  apply in_map_iff in Hin. destruct Hin as [s [Hs Hsin]].
  apply in_map_iff in Hin'. destruct Hin' as [s' [Hs' Hsin']].
  pose proof (Hmin s' (Permutation_in _ (Permutation_sym Hperm) Hsin')).
  pose proof (Hmin' s (Permutation_in _ Hperm Hsin)).
  lra.
Qed.

Lemma simpleTriangulation_Permutation (l l' : list SeismicStation.t) :
  Permutation l l' -> simpleTriangulation l = simpleTriangulation l'.
Proof.
  intros Hperm. pose proof (Permutation_length Hperm) as Hlen.
  destruct l as [| s0 [| s1 rest]].
  - apply Permutation_nil in Hperm. subst. reflexivity.
  - apply Permutation_length_1_inv in Hperm. subst. reflexivity.
  - rewrite (simpleTriangulation_many (s0 :: s1 :: rest)) by (simpl; lia).
    rewrite (simpleTriangulation_many l') by (rewrite <- Hlen; simpl; lia).
    assert (Hne : s0 :: s1 :: rest <> []) by discriminate.
    rewrite <- (minTimeOf_Permutation _ _ Hne Hperm).
    unfold weightedCenter.
    rewrite <- !(Rsum_Permutation _ _ _ Hperm), <- Hlen. reflexivity.
Qed.

(** X18: in exact arithmetic neither the base-case estimator nor the
    combiner depends on the order of its input: a rearranged vector of
    stations, respectively of estimates, gives the same result. *)
Theorem estimators_ignore_order :
  (forall stations stations' : list SeismicStation.t,
      Permutation stations stations' ->
      simpleTriangulation stations = simpleTriangulation stations')
  /\ (forall results results' : list EpicenterResult.t,
        Permutation results results' ->
        weightedCombination results = weightedCombination results').
Proof.
  split.
  - apply simpleTriangulation_Permutation.
  - intros results results' Hperm.
    pose proof (Permutation_length Hperm) as Hlen.
    destruct results as [| r1 [| r2 rest]].
    + apply Permutation_nil in Hperm. subst. reflexivity.
    + apply Permutation_length_1_inv in Hperm. subst. reflexivity.
    + rewrite (weightedCombination_many (r1 :: r2 :: rest)) by (simpl; lia).
      rewrite (weightedCombination_many results')
        by (rewrite <- Hlen; simpl; lia).
      rewrite <- !(Rsum_Permutation _ _ _ Hperm), <- Hlen. reflexivity.
Qed.

Lemma Forall2_nth_error {A : Type} (R0 : A -> A -> Prop) (l l' : list A) :
  length l = length l' ->
  (forall i a b, nth_error l i = Some a -> nth_error l' i = Some b ->
                 R0 a b) ->
  Forall2 R0 l l'.
Proof.
  revert l'. induction l as [| a rest IH]; intros [| b rest'] Hlen H;
    try discriminate; constructor.
  - apply (H 0%nat); reflexivity.
  - apply IH; [simpl in Hlen; lia |].
    intros i a' b' Ha Hb. apply (H (S i)); assumption.
Qed.

Lemma filter_Permutation {A : Type} (f : A -> bool) (l l' : list A) :
  Permutation l l' -> Permutation (filter f l) (filter f l').
Proof.
  induction 1 as [| a l l' _ IH | a b l | l l' l'' _ IH1 _ IH2]; simpl.
  - constructor.
  - destruct (f a); [constructor |]; exact IH.
  - destruct (f a); destruct (f b); try apply Permutation_refl.
    apply perm_swap.
  - eapply Permutation_trans; eassumption.
Qed.

Lemma partition_Permutation (l l' : list SeismicStation.t)
    (bounds : GeoBounds.t) :
  Permutation l l' ->
  Forall2 quadPermuted (partitionStations l (quadrants bounds))
          (partitionStations l' (quadrants bounds)).
Proof.
  intros Hperm. apply Forall2_nth_error.
  - rewrite !partition_length. reflexivity.
  - intros i q q' Hq Hq'.
    destruct (partition_bucket _ _ _ _ Hq) as [Hb Hs].
    destruct (partition_bucket _ _ _ _ Hq') as [Hb' Hs'].
    split; [congruence |]. rewrite Hs, Hs'.
    apply filter_Permutation. exact Hperm.
Qed.

Lemma solve_fold_Permutation
    (recurse : list SeismicStation.t -> GeoBounds.t
               -> option EpicenterResult.t)
    (qs1 qs2 : list Quadrant.t) :
  (forall l1 l2 b, Permutation l1 l2 -> recurse l1 b = recurse l2 b) ->
  Forall2 quadPermuted qs1 qs2 ->
  forall acc,
    fold_left (solve_step recurse) qs1 acc
    = fold_left (solve_step recurse) qs2 acc.
Proof.
  intros Hrec H. induction H as [| q1 q2 qs1 qs2 [Hb Hs] _ IH];
    intros acc; simpl; auto.
  rewrite IH. f_equal. destruct acc as [results |]; simpl; auto.
  rewrite Hb, (Hrec _ _ (Quadrant.bounds q1) Hs).
  destruct (Quadrant.stations q1) as [| a l1].
  - apply Permutation_nil in Hs. rewrite Hs. reflexivity.
  - destruct (Quadrant.stations q2) as [| a' l2]; [| reflexivity].
    apply Permutation_sym, Permutation_nil in Hs. discriminate.
Qed.

Lemma locateEpicenter_Permutation (fuel : nat) :
  forall (l l' : list SeismicStation.t) (bounds : GeoBounds.t),
    Permutation l l' ->
    locateEpicenter fuel l bounds = locateEpicenter fuel l' bounds.
Proof.
  induction fuel as [| fuel IH]; intros l l' bounds Hperm; simpl; auto.
  rewrite (Permutation_length Hperm).
  destruct (length l' <=? BASE_CASE_SIZE)%nat.
  - rewrite (simpleTriangulation_Permutation l l' Hperm). reflexivity.
  - unfold solveQuadrants.
    rewrite (solve_fold_Permutation (locateEpicenter fuel)
               (partitionStations l (quadrants bounds))
               (partitionStations l' (quadrants bounds))).
    + reflexivity.
    + exact IH.
    + apply partition_Permutation. exact Hperm.
Qed.

(** X19: in exact arithmetic the answer of [locateEpicenter] does not
    depend on the order in which the stations are listed. *)
Theorem locateEpicenter_ignores_order :
  forall (fuel : nat) (stations stations' : list SeismicStation.t)
         (bounds : GeoBounds.t),
    Permutation stations stations' ->
    locateEpicenter fuel stations bounds
    = locateEpicenter fuel stations' bounds.
Proof. intros fuel. apply locateEpicenter_Permutation. Qed.

(** ** Stations at one place *)

(** X20: the midpoint splits never separate stations that stand at the
    same coordinates: when more than eight stations of the vector stand at
    one place of the region (of finite bounds), [locateEpicenter] recurses without end,
    whatever the other stations are; so whenever it returns, no place of
    the region holds more than eight of the stations. *)
Theorem locateEpicenter_crowd_never_returns :
  forall (stations : list SeismicStation.t) (bounds : GeoBounds.t)
         (s : SeismicStation.t),
    GeoBounds.contains bounds s = true ->
    ((8 < length (filter (samePlace s) stations))%nat ->
     forall fuel : nat, locateEpicenter fuel stations bounds = None)
    /\ (forall (fuel : nat) (r : EpicenterResult.t),
          locateEpicenter fuel stations bounds = Some r ->
          (length (filter (samePlace s) stations) <= 8)%nat).
Proof.
  intros stations bounds s Hc. split.
  - intros Hgt fuel. exact (crowd_diverges fuel stations bounds s Hc Hgt).
  - intros fuel r Hrun.
    destruct (Nat.leb_spec (length (filter (samePlace s) stations)) 8)
      as [Hle | Hgt]; [exact Hle |].
    rewrite (crowd_diverges fuel stations bounds s Hc Hgt) in Hrun.
    discriminate.
Qed.

(** ** The centre of a region *)


(** ** The further statements at concrete inputs *)


Lemma gridSE_in_region :
  Forall (fun s => GeoBounds.contains gridRegion s = true) gridSE.
Proof.
  unfold gridSE, gridRegion. repeat constructor; apply contains_spec; simpl; lra.
Qed.

Lemma gridResults_positive :
  Forall (fun e => 0 < EpicenterResult.confidence e) gridResults.
Proof.
  unfold gridResults.
  repeat constructor; apply simpleTriangulation_confidence_pos; discriminate.
Qed.

Lemma midpointSampler_inRange : inRange midpointSampler.
Proof. intros a b k Hab. unfold midpointSampler. lra. Qed.



Lemma combiner_calls_witness :
  Forall (fun results => (length results <= 4)%nat) [gridResults].
Proof.
  exact (proj1 (combiner_calls_at_most_four 2 gridStations gridRegion
                  (weightedCombination gridResults) [gridResults]
                  grid_run_log)).
Defined.

Lemma ignores_ids_witness :
  locateEpicenter 1 gridSE gridRegion
  = locateEpicenter 1 (map (renumber 99) gridSE) gridRegion.
Proof.
  apply locateEpicenter_ignores_ids.
  unfold gridSE. simpl. repeat constructor.
Defined.

Lemma total_weight_witness :
  1 <= snd (weight_loop (minTimeOf gridSE) gridSE) <= INR 2.
Proof.
  assert (Hlen : (2 <= length gridSE)%nat) by (simpl; lia).
  exact (proj2 (proj2 (simpleTriangulation_total_weight gridSE Hlen))).
Defined.

Lemma stays_inside_witness :
  0 <= Point.x (EpicenterResult.location (simpleTriangulation gridSE)) <= 4
  /\ 0 <= Point.y (EpicenterResult.location (simpleTriangulation gridSE))
     <= 4.
Proof.
  refine (simpleTriangulation_stays_inside gridSE gridRegion _
            gridSE_in_region).
  discriminate.
Defined.

Lemma between_inputs_witness :
  0 <= EpicenterResult.confidence (weightedCombination gridResults)
  <= Rsum EpicenterResult.confidence gridResults.
Proof.
  refine (proj1 (proj2 (proj2 (weightedCombination_between_inputs gridResults
                                 0 (Rsum EpicenterResult.confidence
                                         gridResults)
                                 _ gridResults_positive))) _).
  - discriminate.
  - pose proof gridResults_positive as Hpos. rewrite Forall_forall in Hpos.
    intros e He. split.
    + apply Rlt_le, Hpos. exact He.
    + apply Rsum_ge_term; [| exact He].
      intros e' He'. apply Rlt_le, Hpos. exact He'.
Defined.

Lemma estimate_in_region_witness :
  (0 <= Point.x (EpicenterResult.location (weightedCombination gridResults))
   <= 4
   /\ 0 <= Point.y (EpicenterResult.location
                      (weightedCombination gridResults)) <= 4)
  /\ EpicenterResult.confidence (weightedCombination gridResults) <= 1
  /\ 0 <= EpicenterResult.error (weightedCombination gridResults).
Proof.
  refine (locateEpicenter_estimate_in_region 2 gridStations gridRegion
            (weightedCombination gridResults) _ grid_in_region grid_run).
  discriminate.
Defined.

Lemma simultaneous_witness :
  EpicenterResult.location (simpleTriangulation gridSE)
  = Point.mk (Rsum latitude gridSE / INR 2) (Rsum longitude gridSE / INR 2).
Proof.
  refine (simpleTriangulation_simultaneous gridSE 0 _ _).
  - simpl. lia.
  - intros s Hs. unfold gridSE in Hs. simpl in Hs.
    destruct Hs as [<- | [<- | []]]; reflexivity.
Defined.

Lemma colocated_witness :
  EpicenterResult.location (simpleTriangulation twinStations) = Point.mk 1 1
  /\ EpicenterResult.error (simpleTriangulation twinStations)
     = Rsum (fun s => (detection_time s - minTimeOf twinStations) ^ 2)
            twinStations.
Proof.
  destruct (simpleTriangulation_colocated twinStations 1 1) as [H1 [H2 _]].
  - simpl. lia.
  - intros s Hs. unfold twinStations in Hs. simpl in Hs.
    destruct Hs as [<- | [<- | []]]; split; reflexivity.
  - split; assumption.
Defined.

Lemma single_quadrant_witness :
  locateEpicenter 3 gridStations wideRegion
  = Some (weightedCombination gridResults).
Proof.
  rewrite (locateEpicenter_single_quadrant 2 gridStations wideRegion
             gridRegion 0).
  - exact grid_run.
  - simpl. lia.
  - intros s Hs. unfold gridStations in Hs. simpl in Hs.
    repeat (destruct Hs as [<- | Hs]); try contradiction;
      (split;
       [ apply contains_spec; unfold wideRegion; simpl; lra
       | unfold quadrantIndex, wideRegion; simpl;
         rewrite !(proj2 (double_le_true _ ((0 + 8) / 2))) by lra;
         reflexivity ]).
  - unfold wideRegion, gridRegion. simpl. do 2 f_equal; lra.
Defined.

Lemma generated_stations_witness :
  length (generateEarthquakeData midpointSampler 3 (Point.mk 1 1) gridRegion)
  = 3%nat
  /\ map SeismicStation.id
       (generateEarthquakeData midpointSampler 3 (Point.mk 1 1) gridRegion)
     = [0; 1; 2]%Z
  /\ Forall (fun s => GeoBounds.contains gridRegion s = true)
            (generateEarthquakeData midpointSampler 3 (Point.mk 1 1)
               gridRegion).
Proof.
  destruct (generateEarthquakeData_stations midpointSampler 3 (Point.mk 1 1)
              gridRegion) as [Hlen [Hids Hin]].
  split; [exact Hlen | split; [exact Hids |]].
  eapply Forall_impl; [| apply (Hin midpointSampler_inRange)].
  - intros s [Hs _]. exact Hs.
  - unfold gridRegion. simpl. lra.
  - unfold gridRegion. simpl. lra.
Defined.

Lemma generated_located_witness :
  0 < EpicenterResult.confidence
        (simpleTriangulation
           (generateEarthquakeData midpointSampler 3 (Point.mk 1 1)
              gridRegion)) <= 1.
Proof.
  refine (proj2 (generated_data_located_in_region midpointSampler 3
                   (Point.mk 1 1) gridRegion 1 _
                   midpointSampler_inRange _ _ _ _)).
  - unfold gridRegion. simpl. lra.
  - unfold gridRegion. simpl. lra.
  - lia.
  - reflexivity.
Defined.

Lemma ignores_order_witness :
  locateEpicenter 1 gridSE gridRegion
  = locateEpicenter 1 (rev gridSE) gridRegion.
Proof.
  apply locateEpicenter_ignores_order. unfold gridSE. simpl.
  apply perm_swap.
Defined.

Lemma crowd_never_returns_witness :
  locateEpicenter 7 crowdedStations crowdedRegion = None
  /\ (length (filter (samePlace (gridStation 2 2 4)) gridStations) <= 8)%nat.
Proof.
  split.
  - refine (proj1 (locateEpicenter_crowd_never_returns crowdedStations
                     crowdedRegion (SeismicStation.mk 1 1 0 0) _) _ 7%nat).
    + apply contains_spec. unfold crowdedRegion. simpl. lra.
    + fold (crowd (SeismicStation.mk 1 1 0 0) crowdedStations).
      rewrite crowded_all_same. simpl. lia.
  - refine (proj2 (locateEpicenter_crowd_never_returns gridStations
                     gridRegion (gridStation 2 2 4) _) 2%nat _ grid_run).
    apply contains_spec. unfold gridRegion. simpl. lra.
Defined.


(** * The program on doubles *)

(** Against C4 as stated: on doubles the confidence is neither confined to
    (0,1] nor strictly decreasing.  Two stations at the origin that detect
    at times 0 and 1e200 are finite input, yet the squared residual
    overflows, the error is infinite and the confidence is exactly 0.  Two
    stations that detect 1e-9, respectively 2e-9, apart have different
    errors and normalised errors, yet both confidences round to exactly
    1. *)
Lemma ieee_confidence_zero_and_flat :
  forallb IEEE.finiteStation IEEE.overflowPair = true
  /\ IEEE.EpicenterResult.confidence
       (IEEE.simpleTriangulation IEEE.overflowPair) = 0%float
  /\ PrimFloat.ltb 0
       (IEEE.EpicenterResult.confidence
          (IEEE.simpleTriangulation IEEE.overflowPair)) = false
  /\ PrimFloat.ltb
       (PrimFloat.div
          (IEEE.EpicenterResult.error
             (IEEE.simpleTriangulation IEEE.nanoPair)) 2)
       (PrimFloat.div
          (IEEE.EpicenterResult.error
             (IEEE.simpleTriangulation IEEE.twoNanoPair)) 2) = true
  /\ IEEE.EpicenterResult.confidence (IEEE.simpleTriangulation IEEE.nanoPair)
     = IEEE.EpicenterResult.confidence
         (IEEE.simpleTriangulation IEEE.twoNanoPair).
Proof. repeat split; vm_compute; reflexivity. Qed.

(** Against C6 as stated: on doubles the quadrants of a region with
    [min <= max] can reach beyond it.  For latitudes from 1e308 to 1.7e308
    the sum [min_lat + max_lat] overflows, the midpoint latitude is
    infinite, and a station at latitude 1.75e308, north of the region, lies
    in a southern quadrant: the union of the quadrants is not the
    region. *)
Lemma ieee_midpoint_overflow_leaks :
  PrimFloat.leb (IEEE.GeoBounds.min_lat IEEE.hugeRegion)
                (IEEE.GeoBounds.max_lat IEEE.hugeRegion) = true
  /\ PrimFloat.leb (IEEE.GeoBounds.min_lon IEEE.hugeRegion)
                   (IEEE.GeoBounds.max_lon IEEE.hugeRegion) = true
  /\ IEEE.finite (IEEE.GeoBounds.max_lat IEEE.hugeRegion) = true
  /\ IEEE.finiteStation IEEE.northOfHuge = true
  /\ IEEE.GeoBounds.contains IEEE.hugeRegion IEEE.northOfHuge = false
  /\ existsb (fun q => IEEE.GeoBounds.contains (IEEE.Quadrant.bounds q)
                                               IEEE.northOfHuge)
             (IEEE.quadrants IEEE.hugeRegion) = true.
Proof. repeat split; vm_compute; reflexivity. Qed.

(** Against C10 as stated: ten finite stations, all inside the region
    [0,4] x [0,4], five at (1,1) and five at (3,3), one of each group
    detecting 1e160 later than the others.  Both buckets are base cases
    whose squared residual overflows, so both estimates have confidence
    exactly 0; [weightedCombination] receives them, its [total_weight] is 0,
    it divides 0 by 0, and [locateEpicenter] returns a location that is NaN
    with confidence 0. *)
Lemma ieee_zero_confidence_reaches_combiner :
  IEEE.lateStations <> []
  /\ forallb IEEE.finiteStation IEEE.lateStations = true
  /\ forallb (IEEE.GeoBounds.contains IEEE.smallRegion) IEEE.lateStations
     = true
  /\ exists results r,
       IEEE.handedToCombiner IEEE.lateStations IEEE.smallRegion
       = Some results
       /\ length results = 2%nat
       /\ existsb (fun e => PrimFloat.ltb 0 (IEEE.EpicenterResult.confidence e))
                  results = false
       /\ IEEE.totalWeight results = 0%float
       /\ IEEE.locateEpicenter 2 IEEE.lateStations IEEE.smallRegion = Some r
       /\ r = IEEE.weightedCombination results
       /\ PrimFloat.ltb 0 (IEEE.EpicenterResult.confidence r) = false
       /\ PrimFloat.is_nan (IEEE.Point.x (IEEE.EpicenterResult.location r))
          = true.
Proof.
  split; [discriminate |].
  split; [vm_compute; reflexivity |].
  split; [vm_compute; reflexivity |].
  eexists. eexists.
  split; [vm_compute; reflexivity |].
  repeat split; vm_compute; reflexivity.
Qed.

(** On doubles the midpoint of two neighbouring doubles is one of them:
    for the latitudes and longitudes from 0.3 to the next double, the SW
    quadrant is the region itself, and nine stations of which five stand
    on the lower and four on the upper corner, so that no more than five
    share a place, all fall into it.  The call repeats itself and never
    returns. *)
Lemma ieee_neighbouring_doubles_never_return :
  forall fuel : nat,
    IEEE.locateEpicenter fuel IEEE.tightStations IEEE.tightRegion = None.
Proof.
  induction fuel as [| fuel IH]; [reflexivity |].
  change (IEEE.locateEpicenter (S fuel) IEEE.tightStations IEEE.tightRegion)
    with (match IEEE.solveQuadrants (IEEE.locateEpicenter fuel)
                  (IEEE.partitionStations IEEE.tightStations
                     (IEEE.quadrants IEEE.tightRegion)) with
          | Some results => Some (IEEE.weightedCombination results)
          | None => None
          end).
  assert (Hpart : IEEE.partitionStations IEEE.tightStations
                    (IEEE.quadrants IEEE.tightRegion)
                  = IEEE.tightQuadrants) by (vm_compute; reflexivity).
  rewrite Hpart. unfold IEEE.tightQuadrants, IEEE.solveQuadrants.
  cbn [fold_left IEEE.solve_step IEEE.Quadrant.stations IEEE.Quadrant.bounds].
  change (IEEE.Quadrant.stations
            (IEEE.Quadrant.mk IEEE.tightRegion IEEE.tightStations
               (IEEE.Point.mk 0 0) 0)) with IEEE.tightStations.
  unfold IEEE.tightStations at 1.
  cbn [IEEE.solve_step app].
  fold IEEE.tightStations. rewrite IH. reflexivity.
Qed.

(** On doubles [Point::distance] leaves the metric of exact arithmetic: two
    different points 1e-200 apart are at distance 0, the squares
    underflowing, and by rounding the way from (0,0) to (0.4,2.8) is longer
    than the way through (0.1,0.7). *)
Lemma ieee_distance_underflows_and_rounds :
  IEEE.Point.distance (IEEE.Point.mk 1e-200 0) (IEEE.Point.mk 0 0) = 0%float
  /\ PrimFloat.ltb
       (PrimFloat.add
          (IEEE.Point.distance (IEEE.Point.mk 0 0) (IEEE.Point.mk 0.1 0.7))
          (IEEE.Point.distance (IEEE.Point.mk 0.1 0.7)
                               (IEEE.Point.mk 0.4 2.8)))
       (IEEE.Point.distance (IEEE.Point.mk 0 0) (IEEE.Point.mk 0.4 2.8))
     = true.
Proof. split; vm_compute; reflexivity. Qed.
